(** * Rent reclaim dApp: account detection and the reclaim transaction

    Shallow embedding of [src/lib/detection-logic.ts] (the scan that collects
    closable accounts) and of the reclaim flow of [src/app/page.tsx] (address
    validation, fee computation, instruction assembly, confirmation polling).

    Conventions.
    - A JavaScript [number] holding an integer below 2^53 is written as a [Z];
      [+] and [-] on such values are exact.  The two operations of the source
      that can round, [x * 0.15] and [x / 0x100000000], go through the IEEE-754
      binary64 specification of the standard library ([SpecFloat]).
    - Byte arrays ([Buffer], [Uint8Array]) are lists of [Z] in [0, 256).
    - A thrown [Error] is its message; code that can throw returns
      [JsError + A].
    - A string is the list of the bytes of its UTF-8 encoding; for the ASCII
      texts the code measures ([length], [slice]) a byte is a character. *)

From Stdlib Require Import ZArith List String Ascii Bool Lia SpecFloat.
From stdpp Require Import base list strings gmap.

Local Open Scope Z_scope.

Definition JsError : Type := string.

(** ** JavaScript numbers (IEEE-754 binary64) *)

Module JsNumber.
Definition prec : Z := 53.
Definition emax : Z := 1024.

Definition number : Type := spec_float.

(** The number whose value is the integer [z] (rounded if [z] needs more
    than 53 bits). *)
Definition of_Z (z : Z) : number := binary_normalize prec emax z 0 false.

Definition mul : number -> number -> number := SFmul prec emax.
Definition div : number -> number -> number := SFdiv prec emax.

(** [Math.floor], read back as an integer.  NaN and the infinities have no
    integer value; they do not arise from finite lamport amounts. *)
Definition Math_floor (x : number) : Z :=
  match x with
  | S754_finite s m e => Z.shiftl (if s then Zneg m else Zpos m) e
  | _ => 0
  end.

(** The literal [0.15]: the binary64 value nearest to 15/100. *)
Definition lit_0_15 : number := div (of_Z 15) (of_Z 100).

(** The literal [0x100000000]. *)
Definition lit_0x100000000 : number := of_Z 4294967296.

(** [x >>> 0] on an integer-valued number: ToUint32. *)
Definition ushr0 (x : Z) : Z := x mod 2 ^ 32.

Definition zero : number := S754_zero false.
End JsNumber.

(** ** Base58 (the [bs58] codec used by [PublicKey]) *)

Module Bs58.
Definition ALPHABET : string :=
  "123456789ABCDEFGHJKLMNPQRSTUVWXYZabcdefghijkmnopqrstuvwxyz".

Definition digit_char (d : Z) : ascii :=
  nth (Z.to_nat d) (list_ascii_of_string ALPHABET) "1"%char.

Fixpoint index_of (c : ascii) (l : list ascii) (i : Z) : option Z :=
  match l with
  | [] => None
  | x :: l' => if Ascii.eqb c x then Some i else index_of c l' (i + 1)
  end.

Definition char_digit (c : ascii) : option Z :=
  index_of c (list_ascii_of_string ALPHABET) 0.

(** Big-endian digits to value. *)
Definition be_value (base : Z) (ds : list Z) : Z :=
  fold_left (fun acc d => acc * base + d) ds 0.

(** The [n] low digits of [v], least significant first. *)
Fixpoint le_digits (base : Z) (n : nat) (v : Z) : list Z :=
  match n with
  | O => []
  | S n' => v mod base :: le_digits base n' (v / base)
  end.

Definition be_digits (base : Z) (n : nat) (v : Z) : list Z :=
  rev (le_digits base n v).

Fixpoint strip_zeros (ds : list Z) : list Z :=
  match ds with
  | 0 :: ds' => strip_zeros ds'
  | _ => ds
  end.

Fixpoint leading_zeros (ds : list Z) : nat :=
  match ds with
  | 0 :: ds' => S (leading_zeros ds')
  | _ => O
  end.

(** Every leading zero byte becomes one ['1']; the rest is the number in
    base 58 without leading zero digits.  [2 * length bytes] digits always
    suffice since [58 ^ 2 > 256]. *)
Definition encode (bytes : list Z) : string :=
  string_of_list_ascii
    (map digit_char
       (repeat 0 (leading_zeros bytes)
        ++ strip_zeros (be_digits 58 (2 * length bytes) (be_value 256 bytes)))).

(** [None] stands for the "Non-base58 character" exception. *)
Definition decode (s : string) : option (list Z) :=
  ds ← mapM char_digit (list_ascii_of_string s);
  Some (repeat 0 (leading_zeros ds)
        ++ strip_zeros (be_digits 256 (length ds) (be_value 58 ds))).
End Bs58.

(** ** The parts of [@solana/web3.js] and [@solana/spl-token] the code uses *)

Module Web3.
(** A public key is kept as its big number [_bn], as the library does. *)
Record PublicKey : Type := mkPublicKey { bn : Z }.

Definition PUBLIC_KEY_LENGTH : nat := 32.

(** [new PublicKey(value)] for a string [value]. *)
Definition PublicKey_new (value : string) : JsError + PublicKey :=
  match Bs58.decode value with
  | None => inl "Non-base58 character"%string
  | Some decoded =>
      if Nat.eqb (length decoded) PUBLIC_KEY_LENGTH
      then inr (mkPublicKey (Bs58.be_value 256 decoded))
      else inl "Invalid public key input"%string
  end.

Definition toBytes (k : PublicKey) : list Z :=
  Bs58.be_digits 256 PUBLIC_KEY_LENGTH (bn k).

Definition toBase58 (k : PublicKey) : string := Bs58.encode (toBytes k).

Definition toString (k : PublicKey) : string := toBase58 k.

Definition equals (a b : PublicKey) : bool := bn a =? bn b.

(** A key written as a base58 literal in the source. *)
Definition key_literal (s : string) : PublicKey :=
  match PublicKey_new s with
  | inr k => k
  | inl _ => mkPublicKey 0
  end.

Definition TOKEN_PROGRAM_ID : PublicKey :=
  Eval vm_compute in key_literal "TokenkegQfeZyiNwAJbNbGKPFXCWuBvf9Ss623VQ5DA".

Definition ASSOCIATED_TOKEN_PROGRAM_ID : PublicKey :=
  Eval vm_compute in key_literal "ATokenGPvbdGVqstVQmcLsNZAqeEbtQaMy63xtto2CXv".

Definition SYSTEM_PROGRAM_ID : PublicKey :=
  Eval vm_compute in key_literal "11111111111111111111111111111111".

Record AccountMeta : Type := mkAccountMeta {
  pubkey : PublicKey;
  isSigner : bool;
  isWritable : bool
}.

Record TransactionInstruction : Type := mkInstruction {
  keys : list AccountMeta;
  programId : PublicKey;
  data : list Z
}.

Record Transaction : Type := mkTransaction {
  recentBlockhash : string;
  feePayer : PublicKey;
  instructions : list TransactionInstruction
}.

(** [createCloseAccountInstruction(account, destination, authority)] of
    spl-token with its default arguments: token instruction 9. *)
Definition createCloseAccountInstruction
    (account destination authority : PublicKey) : TransactionInstruction :=
  {| keys := [ mkAccountMeta account false true;
               mkAccountMeta destination false true;
               mkAccountMeta authority true false ];
     programId := TOKEN_PROGRAM_ID;
     data := [9] |}.
End Web3.

(** ** Ledger answers *)

Module Rpc.
Import Web3.

Record AccountInfo (D : Type) : Type := mkAccountInfo {
  lamports : Z;
  owner : PublicKey;
  executable : bool;
  rentEpoch : option Z;
  data : D
}.
Arguments mkAccountInfo {D}.
Arguments lamports {D}.
Arguments owner {D}.
Arguments executable {D}.
Arguments rentEpoch {D}.
Arguments data {D}.

(** [data.parsed.info] as the scan reads it: [tokenAmount.amount] and
    [decimals] ([None] is [undefined]). *)
Record ParsedAccountData : Type := mkParsed {
  tokenAmount_amount : string;
  decimals : option Z
}.

Record Keyed (D : Type) : Type := mkKeyed {
  pubkey : PublicKey;
  account : AccountInfo D
}.
Arguments mkKeyed {D}.
Arguments pubkey {D}.
Arguments account {D}.

Record MemcmpFilter : Type := mkMemcmp {
  offset : Z;
  bytes : string
}.

(** A connection answers each query with a value or throws.
    [getParsedTokenAccountsByOwner] is issued twice by the scan with the
    same arguments; its first argument counts the earlier calls, so the
    ledger may answer the two differently. *)
Record Connection : Type := mkConnection {
  getParsedTokenAccountsByOwner :
    nat -> PublicKey -> PublicKey -> JsError + list (Keyed ParsedAccountData);
  getProgramAccounts :
    PublicKey -> list MemcmpFilter -> JsError + list (Keyed (list Z));
  getAccountInfo :
    PublicKey -> JsError + option (AccountInfo (list Z))
}.
End Rpc.

(** ** lib/detection-logic *)

Module Detection.
Import Web3.

Inductive AccountType : Type :=
| token | nft | associated_token | metadata | other | unknown.

Record EmptyAccount : Type := mkEmptyAccount {
  address : PublicKey;
  lamports : Z;
  owner : PublicKey;
  executable : bool;
  rentEpoch : Z;
  type : AccountType;
  programId : string
}.

(** An [async] computation: it appends to the console and either returns
    or throws. *)
Definition Async (A : Type) : Type :=
  list string -> list string * (JsError + A).

Definition ret {A : Type} (a : A) : Async A :=
  fun console => (console, inr a).

Definition bind {A B : Type} (m : Async A) (k : A -> Async B) : Async B :=
  fun console =>
    match m console with
    | (console', inr a) => k a console'
    | (console', inl e) => (console', inl e)
    end.

Definition throw {A : Type} (e : JsError) : Async A :=
  fun console => (console, inl e).

(** [await] of a ledger answer. *)
Definition await {A : Type} (r : JsError + A) : Async A :=
  fun console => (console, r).

Definition console_log (msg : string) : Async unit :=
  fun console => (console ++ [msg], inr tt).

Definition try_catch {A : Type} (body : Async A) (handler : JsError -> Async A)
  : Async A :=
  fun console =>
    match body console with
    | (console', inr a) => (console', inr a)
    | (console', inl e) => handler e console'
    end.

#[export] Instance Async_ret : MRet Async := @ret.
#[export] Instance Async_bind : MBind Async := fun A B k m => bind m k.

(** [reclaimableAccounts.some(a => a.address.equals(pubkey))] *)
Definition isAlreadyIncluded
    (reclaimableAccounts : list EmptyAccount) (pubkey : PublicKey) : bool :=
  existsb (fun a => equals (address a) pubkey) reclaimableAccounts.

(** [account.account.rentEpoch ?? 0] *)
Definition rentEpoch_or_0 {D : Type} (info : Rpc.AccountInfo D) : Z :=
  match Rpc.rentEpoch info with
  | Some r => r
  | None => 0
  end.

(** The object literal every loop pushes: the account's key and ledger
    fields, with the [type] and [programId] the loop supplies. *)
Definition pushed {D : Type} (account : Rpc.Keyed D)
    (type : AccountType) (programId : string) : EmptyAccount :=
  {| address := Rpc.pubkey account;
     lamports := Rpc.lamports (Rpc.account account);
     owner := Rpc.owner (Rpc.account account);
     executable := Rpc.executable (Rpc.account account);
     rentEpoch := rentEpoch_or_0 (Rpc.account account);
     type := type;
     programId := programId |}.

(** [parsedData.info.tokenAmount.amount === '0'] *)
Definition amountIsZero (account : Rpc.Keyed Rpc.ParsedAccountData) : bool :=
  String.eqb (Rpc.tokenAmount_amount (Rpc.data (Rpc.account account))) "0".

(** Body of loop 1 (empty token accounts).  The pause taken every 50
    accumulated entries changes no value and is left out. *)
Definition scanTokenAccount
    (reclaimableAccounts : list EmptyAccount)
    (account : Rpc.Keyed Rpc.ParsedAccountData) : list EmptyAccount :=
  if amountIsZero account
  then reclaimableAccounts ++ [pushed account token (toBase58 TOKEN_PROGRAM_ID)]
  else reclaimableAccounts.

(** Body of loop 2 (NFT accounts): amount ['0'] and [decimals === 0]. *)
Definition scanNftAccount
    (reclaimableAccounts : list EmptyAccount)
    (account : Rpc.Keyed Rpc.ParsedAccountData) : list EmptyAccount :=
  if amountIsZero account
     && bool_decide (Rpc.decimals (Rpc.data (Rpc.account account)) = Some 0)
  then
    if negb (isAlreadyIncluded reclaimableAccounts (Rpc.pubkey account))
    then
      let programId := toBase58 (Rpc.owner (Rpc.account account)) in
      reclaimableAccounts ++ [pushed account nft programId]
    else reclaimableAccounts
  else reclaimableAccounts.

(** Body of loop 3 (associated token accounts). *)
Definition scanAtaAccount
    (reclaimableAccounts : list EmptyAccount)
    (account : Rpc.Keyed (list Z)) : list EmptyAccount :=
  if 0 <? Rpc.lamports (Rpc.account account)
  then
    if negb (isAlreadyIncluded reclaimableAccounts (Rpc.pubkey account))
    then
      let programId := toBase58 (Rpc.owner (Rpc.account account)) in
      reclaimableAccounts ++ [pushed account associated_token programId]
    else reclaimableAccounts
  else reclaimableAccounts.

(** Body of loop 7 (accounts of all programs).  The local [type] is
    computed from the owning program and then not used: the pushed entry
    carries the literal ["unknown"]. *)
Definition scanProgramAccount
    (reclaimableAccounts : list EmptyAccount)
    (account : Rpc.Keyed (list Z)) : list EmptyAccount :=
  if negb (isAlreadyIncluded reclaimableAccounts (Rpc.pubkey account))
     && (0 <? Rpc.lamports (Rpc.account account))
  then
    let programId := toBase58 (Rpc.owner (Rpc.account account)) in
    let type :=
      if String.eqb programId (toBase58 TOKEN_PROGRAM_ID) then token
      else if String.eqb programId "ATokenGPvbdGVqstVQmcLsNZAqeEbtQaMy63xtto2CXv"
      then associated_token
      else if String.eqb programId "metaqbxxUerdq28cj1RbAqWwTRiWLMsqLoea1PgurZ"
      then metadata
      else unknown in
    reclaimableAccounts ++ [pushed account unknown programId]
  else reclaimableAccounts.

Definition detectBody (connection : Rpc.Connection) (walletAddress : PublicKey)
  : Async (list EmptyAccount) :=
  console_log "Scanning token accounts...";;
  tokenAccounts ←
    await (Rpc.getParsedTokenAccountsByOwner connection 0%nat
             walletAddress TOKEN_PROGRAM_ID);
  let reclaimableAccounts := fold_left scanTokenAccount tokenAccounts [] in
  console_log "Scanning for NFT accounts...";;
  nftAccounts ←
    await (Rpc.getParsedTokenAccountsByOwner connection 1%nat
             walletAddress TOKEN_PROGRAM_ID);
  let reclaimableAccounts :=
    fold_left scanNftAccount nftAccounts reclaimableAccounts in
  console_log "Scanning associated token accounts...";;
  ataAccounts ←
    await (Rpc.getProgramAccounts connection ASSOCIATED_TOKEN_PROGRAM_ID
             [Rpc.mkMemcmp 32 (toBase58 walletAddress)]);
  let reclaimableAccounts :=
    fold_left scanAtaAccount ataAccounts reclaimableAccounts in
  console_log "Scanning other accounts...";;
  allAccounts ← await (Rpc.getAccountInfo connection walletAddress);
  (* step 5 inspects [allAccounts] and adds nothing *)
  console_log "Scanning for accounts from all programs...";;
  allProgramAccounts ←
    await (Rpc.getProgramAccounts connection walletAddress []);
  let reclaimableAccounts :=
    fold_left scanProgramAccount allProgramAccounts reclaimableAccounts in
  ret reclaimableAccounts.

Definition detectReclaimableAccounts
    (connection : Rpc.Connection) (walletAddress : PublicKey)
  : Async (list EmptyAccount) :=
  try_catch (detectBody connection walletAddress)
    (fun error =>
       console_log ("Error detecting reclaimable accounts: " ++ error);;
       throw error).

(** What the caller of the scan receives. *)
Definition scan (connection : Rpc.Connection) (walletAddress : PublicKey)
  : JsError + list EmptyAccount :=
  snd (detectReclaimableAccounts connection walletAddress []).

Definition filterSignificantAccounts
    (accounts : list EmptyAccount) (minLamports : Z) : list EmptyAccount :=
  filter (fun account => minLamports <= lamports account) accounts.

(** [totalLamports] of [calculateTotalReclaim]: the sum is the exact one
    while the balances are not negative and the total is below 2^53. *)
Definition totalLamports (accounts : list EmptyAccount) : Z :=
  fold_left (fun sum account => sum + lamports account) accounts 0.
End Detection.

(** ** app/page *)

Module Page.
Import Web3.

Record EmptyAccount : Type := mkEmptyAccount {
  address : PublicKey;
  lamports : Z;
  owner : PublicKey;
  executable : bool;
  rentEpoch : Z;
  type : string;
  programId : string
}.

(** *** Address validation *)

(** The characters [String.prototype.trim] removes are the WhiteSpace and
    LineTerminator code points of ECMAScript: U+0009 to U+000D, U+0020,
    U+00A0, U+1680, U+2000 to U+200A, U+2028, U+2029, U+202F, U+205F, U+3000
    and U+FEFF.  In UTF-8 the first six are one byte long, U+00A0 is two
    bytes long and the others are three bytes long. *)
Definition is_white_space (c : ascii) : bool :=
  let n := nat_of_ascii c in
  ((9 <=? n) && (n <=? 13))%nat || (n =? 32)%nat.

(** U+00A0 *)
Definition whiteSpace2 : list (nat * nat) := [(194, 160)%nat].

(** U+1680, U+2000 to U+200A, U+2028, U+2029, U+202F, U+205F, U+3000,
    U+FEFF *)
Definition whiteSpace3 : list (nat * nat * nat) :=
  [(225, 154, 128); (226, 128, 128); (226, 128, 129); (226, 128, 130);
   (226, 128, 131); (226, 128, 132); (226, 128, 133); (226, 128, 134);
   (226, 128, 135); (226, 128, 136); (226, 128, 137); (226, 128, 138);
   (226, 128, 168); (226, 128, 169); (226, 128, 175); (226, 129, 159);
   (227, 128, 128); (239, 187, 191)]%nat.

Definition is_white_space_2 (c1 c2 : ascii) : bool :=
  existsb (fun t => (nat_of_ascii c1 =? fst t)%nat && (nat_of_ascii c2 =? snd t)%nat)
          whiteSpace2.

Definition is_white_space_3 (c1 c2 c3 : ascii) : bool :=
  existsb (fun t => (nat_of_ascii c1 =? fst (fst t))%nat
                    && (nat_of_ascii c2 =? snd (fst t))%nat
                    && (nat_of_ascii c3 =? snd t)%nat)
          whiteSpace3.

(** Removes the white space at the head of [s]; [ws2] and [ws3] recognise the
    white space of two and of three bytes. *)
Fixpoint trim_with (ws2 : ascii -> ascii -> bool) (ws3 : ascii -> ascii -> ascii -> bool)
  (s : string) : string :=
  match s with
  | String c1 s1 =>
      if is_white_space c1 then trim_with ws2 ws3 s1
      else match s1 with
           | String c2 s2 =>
               if ws2 c1 c2 then trim_with ws2 ws3 s2
               else match s2 with
                    | String c3 s3 =>
                        if ws3 c1 c2 c3 then trim_with ws2 ws3 s3 else s
                    | EmptyString => s
                    end
           | EmptyString => s
           end
  | EmptyString => EmptyString
  end.

Definition trim_start (s : string) : string :=
  trim_with is_white_space_2 is_white_space_3 s.

Definition string_rev (s : string) : string :=
  string_of_list_ascii (rev (list_ascii_of_string s)).

(** The white space at the end of [s] is the white space at the head of the
    reversed text, with the bytes of each character met last byte first. *)
Definition trim_end (s : string) : string :=
  string_rev (trim_with (fun c2 c1 => is_white_space_2 c1 c2)
                        (fun c3 c2 c1 => is_white_space_3 c1 c2 c3)
                        (string_rev s)).

(** [String.prototype.trim] *)
Definition trim (s : string) : string := trim_end (trim_start s).

Definition isValidSolanaAddress (address : string) : bool :=
  match PublicKey_new (trim address) with
  | inr pubkey => Nat.eqb (String.length (toString pubkey)) 44
  | inl _ => false
  end.

(** *** Fee computation *)

(** [accounts.reduce((sum, a) => sum + a.lamports, 0)] *)
Definition totalLamports (selectedAccountPubkeys : list EmptyAccount) : Z :=
  fold_left (fun sum a => sum + lamports a) selectedAccountPubkeys 0.

(** [Math.floor(totalLamports * 0.15)] *)
Definition feeLamports (totalLamports : Z) : Z :=
  JsNumber.Math_floor
    (JsNumber.mul (JsNumber.of_Z totalLamports) JsNumber.lit_0_15).

(** [totalLamports - feeLamports], the amount displayed as "Net". *)
Definition netLamports (totalLamports : Z) : Z :=
  totalLamports - feeLamports totalLamports.

(** *** Instruction assembly *)

(** [buf.writeUInt32LE(value, offset)]: throws a RangeError unless
    [0 <= value <= 0xffffffff] and the four bytes fit. *)
Definition writeUInt32LE (buf : list Z) (value : Z) (offset : nat)
  : JsError + list Z :=
  if (0 <=? value) && (value <=? 4294967295)
     && (offset + 4 <=? length buf)%nat
  then inr (<[(offset + 3)%nat := (value / 2 ^ 24) mod 256]>
            (<[(offset + 2)%nat := (value / 2 ^ 16) mod 256]>
             (<[(offset + 1)%nat := (value / 2 ^ 8) mod 256]>
              (<[offset := value mod 256]> buf))))
  else inl "RangeError: value is out of range"%string.

(** [Buffer.alloc(8)] followed by the two writes. *)
Definition feeBuffer (feeLamports : Z) : JsError + list Z :=
  match writeUInt32LE (replicate 8 0) (JsNumber.ushr0 feeLamports) 0 with
  | inl e => inl e
  | inr buf =>
      writeUInt32LE buf
        (JsNumber.Math_floor
           (JsNumber.div (JsNumber.of_Z feeLamports) JsNumber.lit_0x100000000))
        4
  end.

(** The object literal pushed last: the fee transfer. *)
Definition feeTransferInstruction
    (wallet FEE_RECIPIENT : PublicKey) (feeLamports : Z)
  : JsError + TransactionInstruction :=
  match feeBuffer feeLamports with
  | inl e => inl e
  | inr feeBuffer =>
      inr {| Web3.keys := [ mkAccountMeta wallet true true;
                            mkAccountMeta FEE_RECIPIENT false true ];
             Web3.programId := key_literal "11111111111111111111111111111111";
             Web3.data := [2; 0; 0; 0] ++ feeBuffer |}
  end.

(** The instruction list of [reclaimSOL]: one close instruction per selected
    account, then the fee transfer. *)
Definition buildInstructions
    (wallet FEE_RECIPIENT : PublicKey)
    (selectedAccountPubkeys : list EmptyAccount)
  : JsError + list TransactionInstruction :=
  let totalLamports := totalLamports selectedAccountPubkeys in
  let feeLamports := feeLamports totalLamports in
  let instructions :=
    map (fun account =>
           createCloseAccountInstruction (address account) wallet wallet)
        selectedAccountPubkeys in
  match feeTransferInstruction wallet FEE_RECIPIENT feeLamports with
  | inl e => inl e
  | inr feeInstruction => inr (instructions ++ [feeInstruction])
  end.

(** *** Confirmation polling *)

Record SignatureStatus : Type := mkSignatureStatus {
  confirmationStatus : option string;
  err : option string
}.

(** One answer of [connection.getSignatureStatus(signature)]: the call
    throws, or yields [{ value }] with [value] possibly [null]. *)
Inductive StatusResponse : Type :=
| status_throws (e : JsError)
| status_value (value : option SignatureStatus).

Definition reachedConfirmed (r : StatusResponse) : bool :=
  match r with
  | status_value (Some st) =>
      match confirmationStatus st with
      | Some c => String.eqb c "confirmed" || String.eqb c "finalized"
      | None => false
      end
  | _ => false
  end.

(** [for (let i = 0; i < 60; i++)], by recursion on the attempts left.
    Returns [confirmed] and the number of status queries issued. *)
Fixpoint pollLoop (attemptsLeft i : nat) (getSignatureStatus : nat -> StatusResponse)
  : bool * nat :=
  match attemptsLeft with
  | O => (false, i)
  | S attemptsLeft' =>
      if reachedConfirmed (getSignatureStatus i)
      then (true, S i)
      else pollLoop attemptsLeft' (S i) getSignatureStatus
  end.

Definition pollConfirmation (getSignatureStatus : nat -> StatusResponse)
  : bool * nat :=
  pollLoop 60 0 getSignatureStatus.

(** *** [reclaimSOL] *)

Record State : Type := mkState {
  connected : bool;
  wallet : option PublicKey;
  publicAddress : string;
  loading : bool;
  accounts : list EmptyAccount;
  selectedAccounts : gset string;
  totalSOL : JsNumber.number;
  status : string;
  error : string
}.

(** What [reclaimSOL] reaches outside the component: the environment, the
    wallet extension and the ledger. *)
Record World : Type := mkWorld {
  NEXT_PUBLIC_FEE_RECIPIENT : option string;
  getLatestBlockhash : JsError + string;
  signTransaction : Transaction -> JsError + Transaction;
  sendRawTransaction : Transaction -> JsError + string;
  getSignatureStatus : string -> nat -> StatusResponse
}.

Section Reclaim.

(** [(x / 1e9).toFixed(4)] for a lamport amount [x]; only the text of the
    success message depends on it. *)
Variable solToFixed4 : Z -> string.

Definition setError (st : State) (msg : string) : State :=
  {| connected := connected st; wallet := wallet st;
     publicAddress := publicAddress st; loading := loading st;
     accounts := accounts st; selectedAccounts := selectedAccounts st;
     totalSOL := totalSOL st; status := status st; error := msg |}.

(** [accounts.filter((a) => selectedAccounts.has(a.address.toString()))] *)
Definition selectedAccountPubkeys (st : State) : list EmptyAccount :=
  filter (fun a => toString (address a) ∈ selectedAccounts st) (accounts st).

(** First part of the [try] block, up to the complete instruction list. *)
Definition reclaimInstructions (st : State) (world : World) (wallet : PublicKey)
  : JsError + list TransactionInstruction :=
  match PublicKey_new (default ""%string (NEXT_PUBLIC_FEE_RECIPIENT world)) with
  | inl e => inl e
  | inr FEE_RECIPIENT =>
      buildInstructions wallet FEE_RECIPIENT (selectedAccountPubkeys st)
  end.

Definition successMessage (totalLamports feeLamports : Z) (signature : string)
  : string :=
  ("✅ Success! Reclaimed " ++ solToFixed4 totalLamports
   ++ " SOL (Net: " ++ solToFixed4 (totalLamports - feeLamports)
   ++ " SOL). Fee: " ++ solToFixed4 feeLamports
   ++ " SOL. Tx: " ++ substring 0 20 signature ++ "...")%string.

Definition submittedMessage (signature : string) : string :=
  ("✅ Transaction submitted! Tx: " ++ substring 0 20 signature ++ "..."
   ++ String "010" "Check Solscan for final confirmation status.")%string.

(** The [try] block: the state it leaves when nothing throws. *)
Definition reclaimTry (st : State) (world : World) (wallet : PublicKey)
  : JsError + State :=
  let totalLamports := totalLamports (selectedAccountPubkeys st) in
  let feeLamports := feeLamports totalLamports in
  match reclaimInstructions st world wallet with
  | inl e => inl e
  | inr instructions =>
  match getLatestBlockhash world with
  | inl e => inl e
  | inr blockhash =>
  let transaction :=
    {| recentBlockhash := blockhash; feePayer := wallet;
       instructions := instructions |} in
  match signTransaction world transaction with
  | inl e => inl e
  | inr signedTx =>
  match sendRawTransaction world signedTx with
  | inl e => inl e
  | inr signature =>
  let confirmed := fst (pollConfirmation (getSignatureStatus world signature)) in
  let message :=
    if confirmed
    then successMessage totalLamports feeLamports signature
    else submittedMessage signature in
  inr {| connected := connected st; wallet := Page.wallet st;
         publicAddress := publicAddress st; loading := true;
         accounts := []; selectedAccounts := ∅;
         totalSOL := JsNumber.zero; status := message; error := "" |}
  end end end end.

Definition reclaimSOL (st : State) (world : World) : State :=
  match wallet st, connected st with
  | Some wallet, true =>
      if negb (String.eqb (toString wallet) (publicAddress st))
      then setError st
             "Connected wallet must match the scanned address to claim. Please connect the correct wallet."
      else if (size (selectedAccounts st) =? 0)%nat
      then setError st "Please select at least one account"
      else
        match reclaimTry st world wallet with
        | inr st' =>
            {| connected := connected st'; wallet := Page.wallet st';
               publicAddress := publicAddress st'; loading := false;
               accounts := accounts st'; selectedAccounts := selectedAccounts st';
               totalSOL := totalSOL st'; status := status st'; error := error st' |}
        | inl message =>
            {| connected := connected st; wallet := Page.wallet st;
               publicAddress := publicAddress st; loading := false;
               accounts := accounts st; selectedAccounts := selectedAccounts st;
               totalSOL := totalSOL st; status := "";
               error := ("Transaction failed: " ++ message)%string |}
        end
  | _, _ => setError st "Please connect your wallet first to claim SOL"
  end.

End Reclaim.
End Page.

(** ** Reference notions used in the statements *)

Module Reference.
Import Web3.

(** The [n] little-endian bytes of [v]. *)
Fixpoint le_bytes (n : nat) (v : Z) : list Z :=
  match n with
  | O => []
  | S n' => v mod 256 :: le_bytes n' (v / 256)
  end.

(** The value of a little-endian byte string. *)
Fixpoint le_value (bs : list Z) : Z :=
  match bs with
  | [] => 0
  | b :: bs' => b + 256 * le_value bs'
  end.

(** The System program's [Transfer]: instruction index 2 as a [u32], then
    the amount as a [u64], both little-endian; the payer signs. *)
Definition systemTransfer (from to : PublicKey) (amount : Z)
  : TransactionInstruction :=
  {| keys := [ mkAccountMeta from true true; mkAccountMeta to false true ];
     programId := SYSTEM_PROGRAM_ID;
     data := le_bytes 4 2 ++ le_bytes 8 amount |}.

(** The error, if any, of a ledger answer. *)
Definition thrown {A : Type} (r : JsError + A) : option JsError :=
  match r with
  | inl e => Some e
  | inr _ => None
  end.

(** The entries the first loop of the scan pushes for the answer
    [tokenAccounts] of the first token query. *)
Definition tokenEntries
    (tokenAccounts : list (Rpc.Keyed Rpc.ParsedAccountData))
  : list Detection.EmptyAccount :=
  fmap (fun account =>
          Detection.pushed account Detection.token (toBase58 TOKEN_PROGRAM_ID))
       (List.filter Detection.amountIsZero tokenAccounts).

(** The progress lines of the scan, one before each of its five queries. *)
Definition progressLines : list string :=
  [ "Scanning token accounts..."; "Scanning for NFT accounts...";
    "Scanning associated token accounts..."; "Scanning other accounts...";
    "Scanning for accounts from all programs..." ]%string.

(** Outcomes of the five ledger queries of the scan, in the order in which
    the scan issues them. *)
Definition queryOutcomes (connection : Rpc.Connection) (walletAddress : PublicKey)
  : list (option JsError) :=
  [ thrown (Rpc.getParsedTokenAccountsByOwner connection 0%nat
              walletAddress TOKEN_PROGRAM_ID);
    thrown (Rpc.getParsedTokenAccountsByOwner connection 1%nat
              walletAddress TOKEN_PROGRAM_ID);
    thrown (Rpc.getProgramAccounts connection ASSOCIATED_TOKEN_PROGRAM_ID
              [Rpc.mkMemcmp 32 (toBase58 walletAddress)]);
    thrown (Rpc.getAccountInfo connection walletAddress);
    thrown (Rpc.getProgramAccounts connection walletAddress []) ].

(** [out] extends [acc] by entries that satisfy [Q], whose addresses are
    new with respect to [acc] and pairwise distinct. *)
Definition extends_fresh (Q : Detection.EmptyAccount -> Prop)
    (acc out : list Detection.EmptyAccount) : Prop :=
  exists ext,
    out = acc ++ ext /\
    NoDup (Detection.address <$> ext) /\
    forall e, e ∈ ext ->
      (Detection.address e ∉ (Detection.address <$> acc)) /\ Q e.

(** Invariant of the right shifts of binary64 rounding: after shifting [p]
    by [j] bits the record holds the quotient, and its round and sticky bits
    locate the remainder with respect to half of [2 ^ j]. *)
Definition shr_inv (p j : Z) (mrs : shr_record) : Prop :=
  0 <= shr_m mrs /\
  0 <= p - shr_m mrs * 2 ^ j < 2 ^ j /\
  match shr_r mrs, shr_s mrs with
  | false, false => p - shr_m mrs * 2 ^ j = 0
  | false, true => 0 < 2 * (p - shr_m mrs * 2 ^ j) < 2 ^ j
  | true, false => 2 * (p - shr_m mrs * 2 ^ j) = 2 ^ j
  | true, true => 2 ^ j < 2 * (p - shr_m mrs * 2 ^ j)
  end.
End Reference.

(** ** Sample data for the closed statements *)

Module Sample.
Import Web3.

Definition walletKey : PublicKey := mkPublicKey 7.

Definition accountKey : PublicKey := mkPublicKey 12345.

Definition otherKey : PublicKey := mkPublicKey 67890.

(** A parsed token account as the ledger reports it. *)
Definition tokenAccount (key : PublicKey) (amount : string) (decimals : option Z)
    (executable : bool) : Rpc.Keyed Rpc.ParsedAccountData :=
  Rpc.mkKeyed key
    (Rpc.mkAccountInfo 2039280 TOKEN_PROGRAM_ID executable None
       (Rpc.mkParsed amount decimals)).

Definition rawAccount (key owner : PublicKey) (lamports : Z)
  : Rpc.Keyed (list Z) :=
  Rpc.mkKeyed key (Rpc.mkAccountInfo lamports owner false None []).

(** A ledger that answers the token query with [tokens] (both times), the
    associated-token query with [atas] and the all-programs query with
    [programs]. *)
Definition ledger
    (tokens : list (Rpc.Keyed Rpc.ParsedAccountData))
    (atas programs : JsError + list (Rpc.Keyed (list Z))) : Rpc.Connection :=
  Rpc.mkConnection
    (fun _ _ _ => inr tokens)
    (fun _ filters => match filters with [] => programs | _ => atas end)
    (fun _ => inr None).

Definition pageAccount (key : PublicKey) (lamports : Z) : Page.EmptyAccount :=
  Page.mkEmptyAccount key lamports TOKEN_PROGRAM_ID false 0 "token"
    "TokenkegQfeZyiNwAJbNbGKPFXCWuBvf9Ss623VQ5DA".

Definition feeRecipient : string :=
  "ATokenGPvbdGVqstVQmcLsNZAqeEbtQaMy63xtto2CXv".

Definition signatureA : string :=
  "5VERv8NMvzbJMEkV8xnrLkEaWRtSz9CosKDYjCJjBRnbJLgp8uirBgmQpjKhoR4tjF3ZpRzrFmBV6UjKdiSZkQUW".

Definition signatureB : string :=
  "5VERv8NMvzbJMEkV8xnrLkEaWRtSz9CosKDYjCJjBRnbJLgp8uirBgmQpjKhoR4tjF3ZpRzrFmBV6UjKdiSZkQUX".

(** A world in which signing and sending succeed, the transaction gets
    [signature], and every status query answers [answer]. *)
Definition world (signature : string) (answer : Page.StatusResponse)
  : Page.World :=
  Page.mkWorld (Some feeRecipient) (inr "blockhash"%string)
    (fun tx => inr tx) (fun _ => inr signature) (fun _ _ => answer).

(** A stand-in for [(x / 1e9).toFixed(4)]. *)
Definition toFixed4 (x : Z) : string := "0.0000".

Definition processed : Page.StatusResponse :=
  Page.status_value (Some (Page.mkSignatureStatus (Some "processed"%string) None)).

(** Two scanned accounts (2039 and 5000 lamports), both selected, with the
    scanned wallet connected. *)
Definition state : Page.State :=
  Page.mkState true (Some walletKey) (toString walletKey) false
    [pageAccount accountKey 2039; pageAccount otherKey 5000]
    {[ toString accountKey; toString otherKey ]}
    JsNumber.zero "" "".
End Sample.

(** ** app/page: the handlers around [reclaimSOL] *)

Module PageUi.
Import Web3 Page.

Definition setPublicAddress (st : State) (value : string) : State :=
  {| connected := connected st; wallet := wallet st;
     publicAddress := value; loading := loading st;
     accounts := accounts st; selectedAccounts := selectedAccounts st;
     totalSOL := totalSOL st; status := status st; error := error st |}.

Definition setSelectedAccounts (st : State) (value : gset string) : State :=
  {| connected := connected st; wallet := wallet st;
     publicAddress := publicAddress st; loading := loading st;
     accounts := accounts st; selectedAccounts := value;
     totalSOL := totalSOL st; status := status st; error := error st |}.

(** [checkWalletMatch]: [None] is [null]. *)
Definition checkWalletMatch (st : State) : option bool :=
  match wallet st with
  | None => None
  | Some wallet =>
      if String.eqb (publicAddress st) "" then None
      else Some (String.eqb (toString wallet) (publicAddress st))
  end.

(** [!walletMatches] *)
Definition notWalletMatches (st : State) : bool :=
  match checkWalletMatch st with
  | Some true => false
  | _ => true
  end.

(** The [disabled] attribute of the reclaim button. *)
Definition reclaimDisabled (st : State) : bool :=
  loading st || (size (selectedAccounts st) =? 0)%nat
  || negb (connected st) || notWalletMatches st.

(** [handleAddressSubmit]: the new content of the address input, the new
    state and the toasts shown. *)
Definition handleAddressSubmit (addressInput : string) (st : State)
  : string * State * list string :=
  if negb (isValidSolanaAddress addressInput)
  then (addressInput,
        setError st "Invalid Solana address. Please check and try again.",
        [])
  else
    match PublicKey_new (trim addressInput) with
    | inr pubkey =>
        (""%string, setError (setPublicAddress st (toString pubkey)) "", [])
    | inl _ => (addressInput, st, ["Invalid Solana address"%string])
    end.

Definition clearAddress (st : State) : State :=
  {| connected := connected st; wallet := wallet st;
     publicAddress := ""; loading := loading st;
     accounts := []; selectedAccounts := ∅;
     totalSOL := JsNumber.zero; status := ""; error := error st |}.

Definition toggleSelectAccount (address : string) (st : State) : State :=
  let newSelected := selectedAccounts st in
  if decide (address ∈ newSelected)
  then setSelectedAccounts st (newSelected ∖ {[ address ]})
  else setSelectedAccounts st (newSelected ∪ {[ address ]}).

Definition selectAll (st : State) : State :=
  setSelectedAccounts st
    (list_to_set (map (fun a => toString (Page.address a)) (accounts st))).

Definition deselectAll (st : State) : State :=
  setSelectedAccounts st ∅.

Definition loadConnectedWallet (st : State) : State :=
  match wallet st with
  | Some wallet => setError (setPublicAddress st (toString wallet)) ""
  | None => st
  end.
End PageUi.

(** ** app/api/scan-address/route *)

Module Route.
Import Web3.

(** A JSON value, as [req.json()] yields it. *)
#[warnings="-register-all"]
Inductive Json : Type :=
| JNull
| JBool (b : bool)
| JNumber (x : JsNumber.number)
| JString (s : string)
| JArray (items : list Json)
| JObject (members : list (string * Json)).

(** [value.name] for a [value] other than [null]: the member of an object
    (the last one with that name), [undefined] (here [None]) when there is
    none; numbers, booleans, strings and arrays have no property named
    [pubkey]. *)
Definition member (name : string) (value : Json) : option Json :=
  match value with
  | JObject members =>
      snd <$> List.find (fun m => String.eqb (fst m) name) (rev members)
  | _ => None
  end.

(** [!value] is false for [truthy] values. *)
Definition truthy (value : Json) : bool :=
  match value with
  | JNull => false
  | JBool b => b
  | JNumber (S754_zero _) | JNumber S754_nan => false
  | JNumber _ => true
  | JString s => negb (String.eqb s "")
  | JArray _ | JObject _ => true
  end.

Inductive Body : Type :=
| accounts_body (accounts : list Detection.EmptyAccount)
| error_body (error : string).

(** [NextResponse.json(body, { status })] *)
Record Response : Type := mkResponse {
  body : Body;
  httpStatus : Z
}.

(** [new Connection(endpoint, ...)]: the constructor throws unless the
    endpoint starts with [http:] or [https:]; [ledger] gives what is behind
    such an endpoint, or the error of the constructor for it. *)
Definition Connection_new (ledger : string -> JsError + Rpc.Connection)
    (endpoint : option string) : JsError + Rpc.Connection :=
  match endpoint with
  | Some url =>
      if String.prefix "http:" url || String.prefix "https:" url
      then ledger url
      else inl "Endpoint URL must start with `http:` or `https:`."%string
  | None => inl "Endpoint URL must start with `http:` or `https:`."%string
  end.

Section Post.

(** What is behind each endpoint. *)
Variable ledger : string -> JsError + Rpc.Connection.

(** The rest of the handler for a [pubkey] that is truthy and not a string
    (a number, [true], an array, an object): [new PublicKey] of such a value
    and what follows are left open. *)
Variable nonStringKey : Rpc.Connection -> Json -> Response.

(** [POST]: [SOLANA_RPC_URL] is the environment variable and [json] the
    outcome of [req.json()]. *)
Definition POST (SOLANA_RPC_URL : option string) (json : JsError + Json)
  : Response :=
  match Connection_new ledger SOLANA_RPC_URL with
  | inl message => mkResponse (error_body message) 500
  | inr connection =>
      match json with
      | inl message => mkResponse (error_body message) 500
      | inr JNull =>
          mkResponse
            (error_body "Cannot destructure property 'pubkey' of 'body' as it is null.")
            500
      | inr body =>
          match member "pubkey" body with
          | None => mkResponse (error_body "Missing pubkey") 400
          | Some pubkey =>
              if negb (truthy pubkey)
              then mkResponse (error_body "Missing pubkey") 400
              else
                match pubkey with
                | JString value =>
                    match PublicKey_new value with
                    | inl message => mkResponse (error_body message) 500
                    | inr owner =>
                        match Detection.scan connection owner with
                        | inl message => mkResponse (error_body message) 500
                        | inr accounts => mkResponse (accounts_body accounts) 200
                        end
                    end
                | _ => nonStringKey connection pubkey
                end
          end
      end
  end.

End Post.

(** The body [scanAccounts] sends: [JSON.stringify({ pubkey: publicAddress })]. *)
Definition scanRequest (publicAddress : string) : Json :=
  JObject [("pubkey"%string, JString publicAddress)].
End Route.

(** ** Invariants of the scan result *)

Module ScanInvariant.
Import Web3 Detection.

(** What every entry of a scan result satisfies, by its type. *)
Definition entry_ok (e : EmptyAccount) : Prop :=
  match type e with
  | token => programId e = toBase58 TOKEN_PROGRAM_ID
  | nft => programId e = toBase58 (owner e)
  | associated_token | unknown =>
      0 < lamports e /\ programId e = toBase58 (owner e)
  | metadata | other => False
  end.
End ScanInvariant.

(** ** Ledgers that differ in the executable flags only *)

Module Flags.
Import Web3.

(** The same account record with its executable flag sent through [f]. *)
Definition reflagInfo {D : Type} (f : bool -> bool) (info : Rpc.AccountInfo D)
  : Rpc.AccountInfo D :=
  Rpc.mkAccountInfo (Rpc.lamports info) (Rpc.owner info)
    (f (Rpc.executable info)) (Rpc.rentEpoch info) (Rpc.data info).

Definition reflagKeyed {D : Type} (f : bool -> bool) (account : Rpc.Keyed D)
  : Rpc.Keyed D :=
  Rpc.mkKeyed (Rpc.pubkey account) (reflagInfo f (Rpc.account account)).

Definition reflagAnswer {D : Type} (f : bool -> bool)
    (answer : JsError + list (Rpc.Keyed D)) : JsError + list (Rpc.Keyed D) :=
  match answer with
  | inl e => inl e
  | inr accounts => inr (reflagKeyed f <$> accounts)
  end.

(** The same ledger, with the executable flag of every record of every
    answer sent through [f]. *)
Definition reflagConnection (f : bool -> bool) (connection : Rpc.Connection)
  : Rpc.Connection :=
  Rpc.mkConnection
    (fun n owner program =>
       reflagAnswer f (Rpc.getParsedTokenAccountsByOwner connection n owner program))
    (fun program filters =>
       reflagAnswer f (Rpc.getProgramAccounts connection program filters))
    (fun key =>
       match Rpc.getAccountInfo connection key with
       | inl e => inl e
       | inr info => inr (reflagInfo f <$> info)
       end).

(** The same scan entry with its executable flag sent through [f]. *)
Definition reflagEntry (f : bool -> bool) (e : Detection.EmptyAccount)
  : Detection.EmptyAccount :=
  Detection.mkEmptyAccount (Detection.address e) (Detection.lamports e)
    (Detection.owner e) (f (Detection.executable e)) (Detection.rentEpoch e)
    (Detection.type e) (Detection.programId e).
End Flags.

(** ** Status answers without their [err] member *)

Module PageFacts.
Import Page.

Definition dropErr (response : StatusResponse) : StatusResponse :=
  match response with
  | status_value (Some st) =>
      status_value (Some (mkSignatureStatus (confirmationStatus st) None))
  | _ => response
  end.

(** The same world, with [err] removed from every status answer. *)
Definition ignoringErr (world : World) : World :=
  mkWorld (NEXT_PUBLIC_FEE_RECIPIENT world) (getLatestBlockhash world)
    (signTransaction world) (sendRawTransaction world)
    (fun signature i => dropErr (getSignatureStatus world signature i)).
End PageFacts.

(** * Properties *)

(** ** Binary64 rounding *)

Section Binary64.
Import JsNumber Reference.

Lemma digits2_pos_bounds (p : positive) :
  2 ^ (Zpos (digits2_pos p) - 1) <= Zpos p < 2 ^ Zpos (digits2_pos p).
Proof.
  induction p as [p IH | p IH |]; cbn [digits2_pos].
  - rewrite Pos2Z.inj_succ, Pos2Z.inj_xI.
    replace (Z.succ (Zpos (digits2_pos p)) - 1) with (Z.succ (Zpos (digits2_pos p) - 1)) by lia.
    rewrite !Z.pow_succ_r by lia. lia.
  - rewrite Pos2Z.inj_succ. change (Zpos p~0) with (2 * Zpos p).
    replace (Z.succ (Zpos (digits2_pos p)) - 1) with (Z.succ (Zpos (digits2_pos p) - 1)) by lia.
    rewrite !Z.pow_succ_r by lia. lia.
  - cbn. lia.
Qed.

Lemma digits2_pos_unique (p : positive) (d : Z) :
  2 ^ (d - 1) <= Zpos p < 2 ^ d -> 0 < d -> Zpos (digits2_pos p) = d.
Proof.
  intros [Hlo Hhi] Hd.
  pose proof (digits2_pos_bounds p) as [Hlo' Hhi'].
  destruct (Z.lt_trichotomy (Zpos (digits2_pos p)) d) as [Hlt | [Heq | Hgt]]; [|exact Heq|].
  - assert (2 ^ Zpos (digits2_pos p) <= 2 ^ (d - 1)) by (apply Z.pow_le_mono_r; lia). lia.
  - assert (2 ^ d <= 2 ^ (Zpos (digits2_pos p) - 1)) by (apply Z.pow_le_mono_r; lia). lia.
Qed.

Lemma iter_pos_invariant {A : Type} (f : A -> A) (P : Z -> A -> Prop) :
  (forall j x, 0 <= j -> P j x -> P (j + 1) (f x)) ->
  forall n j x, 0 <= j -> P j x -> P (j + Zpos n) (SpecFloat.iter_pos f n x).
Proof.
  intros Hstep. induction n as [n IH | n IH |]; intros j x Hj HP; cbn [SpecFloat.iter_pos].
  - replace (j + Zpos n~1) with (j + 1 + Zpos n + Zpos n) by lia.
    apply IH; [lia|]. apply IH; [lia|]. now apply Hstep.
  - replace (j + Zpos n~0) with (j + Zpos n + Zpos n) by lia.
    apply IH; [lia|]. now apply IH.
  - now apply Hstep.
Qed.

Lemma shr_1_inv (p j : Z) (mrs : shr_record) :
  0 <= j -> shr_inv p j mrs -> shr_inv p (j + 1) (shr_1 mrs).
Proof.
  intros Hj. destruct mrs as [m r s]. unfold shr_inv. cbn [shr_m shr_r shr_s].
  rewrite Z.pow_add_r, Z.pow_1_r by lia.
  assert (0 < 2 ^ j) by (apply Z.pow_pos_nonneg; lia).
  intros (Hm & HR & Hloc).
  destruct m as [| [q | q |] | q]; try lia; cbn [shr_1 shr_m shr_r shr_s];
    try change (Zpos q~0) with (2 * Zpos q) in *;
    try change (Zpos q~1) with (2 * Zpos q + 1) in *;
    destruct r, s; cbn [orb]; nia.
Qed.


Lemma Zdigits2_bounds (m : Z) :
  0 < m -> 2 ^ (Zdigits2 m - 1) <= m < 2 ^ Zdigits2 m.
Proof.
  destruct m as [| p | p]; try lia. intros _. apply digits2_pos_bounds.
Qed.

Lemma Zdigits2_unique (m d : Z) :
  2 ^ (d - 1) <= m < 2 ^ d -> 0 < d -> Zdigits2 m = d.
Proof.
  intros Hb Hd.
  assert (0 < m) by (pose proof (Z.pow_pos_nonneg 2 (d - 1)); lia).
  destruct m as [| p | p]; try lia. now apply digits2_pos_unique.
Qed.

Lemma shr_inv_start (m : Z) :
  0 <= m -> shr_inv m 0 (Build_shr_record m false false).
Proof. intros Hm. unfold shr_inv. cbn. lia. Qed.

Lemma shr_inv_iter (m : Z) (n : positive) :
  0 <= m ->
  shr_inv m (Zpos n) (SpecFloat.iter_pos shr_1 n (Build_shr_record m false false)).
Proof.
  intros Hm.
  apply (iter_pos_invariant shr_1 (shr_inv m) (shr_1_inv m) n 0); [lia|].
  now apply shr_inv_start.
Qed.

Lemma shr_fexp_exact_spec (m e : Z) :
  0 < m -> 53 <= Zdigits2 m -> -1074 <= e ->
  exists mrs,
    shr_fexp prec emax m e loc_Exact = (mrs, e + (Zdigits2 m - 53)) /\
    shr_inv m (Zdigits2 m - 53) mrs.
Proof.
  intros Hm Hd He. unfold shr_fexp, fexp, emin, prec, emax.
  rewrite Z.max_l by lia.
  replace (Zdigits2 m + e - 53 - e) with (Zdigits2 m - 53) by lia.
  cbn [shr_record_of_loc].
  destruct (Zdigits2 m - 53) as [| n | n] eqn:Hsh; try lia; cbn [shr].
  - eexists; split; [f_equal; lia|]. apply shr_inv_start; lia.
  - eexists; split; [reflexivity|]. apply shr_inv_iter; lia.
Qed.

Lemma round_nearest_even_inv (p j : Z) (mrs : shr_record) :
  0 <= j -> shr_inv p j mrs ->
  let q := round_nearest_even (shr_m mrs) (loc_of_shr_record mrs) in
  shr_m mrs <= q <= shr_m mrs + 1 /\ 2 * Z.abs (q * 2 ^ j - p) <= 2 ^ j.
Proof.
  intros Hj. destruct mrs as [m r s]. unfold shr_inv. cbn [shr_m shr_r shr_s].
  assert (0 < 2 ^ j) by (apply Z.pow_pos_nonneg; lia).
  intros (Hm & HR & Hloc).
  destruct r, s; cbn [loc_of_shr_record round_nearest_even]; try destruct (Z.even m); lia.
Qed.

Lemma binary_round_aux_spec (s : bool) (p ex : Z) :
  0 < p -> 53 <= Zdigits2 p -> -1074 <= ex -> ex + (Zdigits2 p - 53) < 971 ->
  exists q,
    2 ^ 52 <= q <= 2 ^ 53 /\
    2 * Z.abs (q * 2 ^ (Zdigits2 p - 53) - p) <= 2 ^ (Zdigits2 p - 53) /\
    ((q < 2 ^ 53 /\
      binary_round_aux prec emax s p ex loc_Exact
      = S754_finite s (Z.to_pos q) (ex + (Zdigits2 p - 53))) \/
     (q = 2 ^ 53 /\
      binary_round_aux prec emax s p ex loc_Exact
      = S754_finite s (Z.to_pos (2 ^ 52)) (ex + (Zdigits2 p - 53) + 1))).
Proof.
  intros Hp Hd Hex Hov.
  destruct (shr_fexp_exact_spec p ex Hp Hd Hex) as (mrs & Hshr & Hinv).
  set (sh := Zdigits2 p - 53) in *.
  assert (Hsh : 0 <= sh) by (unfold sh; lia).
  pose proof (round_nearest_even_inv p sh mrs Hsh Hinv) as [Hq Hhalf].
  set (q := round_nearest_even (shr_m mrs) (loc_of_shr_record mrs)) in *.
  assert (Hm : 2 ^ 52 <= shr_m mrs < 2 ^ 53).
  { pose proof (Zdigits2_bounds p Hp) as Hb.
    replace (Zdigits2 p - 1) with (52 + sh) in Hb by (unfold sh; lia).
    replace (Zdigits2 p) with (53 + sh) in Hb by (unfold sh; lia).
    rewrite !Z.pow_add_r in Hb by lia.
    destruct Hinv as (Hm0 & HR & _).
    assert (0 < 2 ^ sh) by (apply Z.pow_pos_nonneg; lia).
    split; nia. }
  exists q. split; [lia|]. split; [exact Hhalf|].
  unfold binary_round_aux. rewrite Hshr. fold q.
  assert (Hq0 : 0 < q) by (assert (0 < 2 ^ 52) by (apply Z.pow_pos_nonneg; lia); lia).
  destruct (Z.eq_dec q (2 ^ 53)) as [Heq | Hne].
  - right. split; [exact Heq|].
    assert (Hdq : Zdigits2 q = 54) by (rewrite Heq; reflexivity).
    destruct (shr_fexp_exact_spec q (ex + sh) Hq0) as (mrs2 & Hshr2 & Hinv2); [lia | lia |].
    rewrite Hshr2. rewrite Hdq in *. change (54 - 53) with 1 in *.
    destruct Hinv2 as (_ & HR2 & _). rewrite Z.pow_1_r in HR2.
    assert (Hm2 : shr_m mrs2 = 2 ^ 52) by lia. rewrite Hm2.
    unfold emax, prec.
    replace (ex + sh + 1 <=? 1024 - 53) with true by (symmetry; apply Z.leb_le; lia).
    reflexivity.
  - left. split; [lia|].
    assert (Hdq : Zdigits2 q = 53) by (apply Zdigits2_unique; lia).
    destruct (shr_fexp_exact_spec q (ex + sh) Hq0) as (mrs2 & Hshr2 & Hinv2); [lia | lia |].
    rewrite Hshr2. rewrite Hdq in *. change (53 - 53) with 0 in *.
    destruct Hinv2 as (_ & HR2 & _). rewrite Z.pow_0_r, Z.mul_1_r in HR2.
    assert (Hm2 : shr_m mrs2 = q) by lia. rewrite Hm2.
    destruct q as [| qp | qp]; try lia.
    unfold emax, prec. replace (ex + sh + 0 <=? 1024 - 53) with true by (symmetry; apply Z.leb_le; lia).
    cbn [Z.to_pos]. f_equal. lia.
Qed.


Lemma Pos_iter_xO (p n : positive) :
  Zpos (Pos.iter xO p n) = Zpos p * 2 ^ Zpos n.
Proof.
  induction n as [| n IH] using Pos.peano_ind.
  - cbn [Pos.iter]. lia.
  - rewrite Pos.iter_succ, Pos2Z.inj_succ, Z.pow_succ_r by lia.
    change (Zpos (Pos.iter xO p n)~0) with (2 * Zpos (Pos.iter xO p n)). lia.
Qed.

Lemma of_Z_spec (t : Z) :
  0 < t < 2 ^ 53 ->
  exists k,
    0 <= k <= 52 /\ 2 ^ 52 <= t * 2 ^ k < 2 ^ 53 /\
    of_Z t = S754_finite false (Z.to_pos (t * 2 ^ k)) (- k).
Proof.
  intros [Ht0 Ht]. destruct t as [| p | p]; try lia.
  pose proof (digits2_pos_bounds p) as Hb.
  set (d := Zpos (digits2_pos p)) in *.
  assert (Hd : 0 < d <= 53).
  { split; [unfold d; lia|].
    destruct (Z_le_gt_dec d 53) as [Hle | Hgt]; [exact Hle|].
    assert (2 ^ 53 <= 2 ^ (d - 1)) by (apply Z.pow_le_mono_r; lia). lia. }
  exists (53 - d).
  assert (Hk : 2 ^ 52 <= Zpos p * 2 ^ (53 - d) < 2 ^ 53).
  { replace 52 with ((d - 1) + (53 - d)) at 1 by lia.
    replace 53 with (d + (53 - d)) at 4 by lia.
    rewrite !Z.pow_add_r by lia.
    assert (0 < 2 ^ (53 - d)) by (apply Z.pow_pos_nonneg; lia). nia. }
  split; [lia|]. split; [exact Hk|].
  unfold of_Z, binary_normalize, binary_round. fold d.
  assert (Hfexp : fexp prec emax (d + 0) = d - 53).
  { unfold fexp, emin, prec, emax. lia. }
  rewrite Hfexp. unfold shl_align.
  replace (d - 53 - 0) with (d - 53) by lia.
  destruct (d - 53) as [| n | n] eqn:Hsh; try lia.
  - replace (53 - d) with 0 in * by lia. rewrite Z.pow_0_r, Z.mul_1_r in *.
    assert (Hdp : Zdigits2 (Zpos p) = 53) by (apply Zdigits2_unique; lia).
    pose proof (binary_round_aux_spec false (Zpos p) 0) as Hspec.
    rewrite Hdp in Hspec.
    destruct Hspec as (q & Hq & Hhalf & Hres); try lia.
    change (53 - 53) with 0 in *. rewrite Z.pow_0_r, Z.mul_1_r in Hhalf.
    assert (q = Zpos p) by lia. subst q.
    destruct Hres as [[_ Hres] | [Heq _]]; [|lia].
    rewrite Hres. reflexivity.
  - assert (Hn : Zpos n = 53 - d) by lia. rewrite <- Hn in *.
    pose proof (Pos_iter_xO p n) as Hmz.
    set (mz := Pos.iter xO p n) in *. rewrite <- Hmz in *.
    assert (Hdz : Zdigits2 (Zpos mz) = 53) by (apply Zdigits2_unique; lia).
    pose proof (binary_round_aux_spec false (Zpos mz) (Zneg n)) as Hspec.
    rewrite Hdz in Hspec.
    destruct Hspec as (q & Hq & Hhalf & Hres); try lia.
    change (53 - 53) with 0 in *. rewrite Z.pow_0_r, Z.mul_1_r in Hhalf.
    assert (q = Zpos mz) by lia. subst q.
    destruct Hres as [[_ Hres] | [Heq _]]; [|lia].
    rewrite Hres. cbn [Z.to_pos]. f_equal; lia.
Qed.

Lemma lit_0_15_value :
  lit_0_15 = S754_finite false 5404319552844595 (-55).
Proof. vm_compute. reflexivity. Qed.

Lemma shiftl_scaled (m e ex : Z) :
  ex <= e -> ex <= 0 -> Z.shiftl m e = (m * 2 ^ (e - ex)) / 2 ^ (- ex).
Proof.
  intros Hle Hex.
  assert (0 < 2 ^ (- ex)) by (apply Z.pow_pos_nonneg; lia).
  destruct (Z_le_gt_dec 0 e) as [He | He].
  - rewrite Z.shiftl_mul_pow2 by lia.
    replace (e - ex) with (e + - ex) by lia.
    rewrite Z.pow_add_r, Z.mul_assoc by lia.
    rewrite Z.div_mul by lia. reflexivity.
  - rewrite Z.shiftl_div_pow2 by lia.
    replace (- ex) with (- e + (e - ex)) at 1 by lia.
    rewrite Z.pow_add_r by lia.
    assert (0 < 2 ^ (e - ex)) by (apply Z.pow_pos_nonneg; lia).
    assert (0 < 2 ^ (- e)) by (apply Z.pow_pos_nonneg; lia).
    rewrite Z.div_mul_cancel_r by lia. reflexivity.
Qed.


Lemma Zdigits2_product (n : Z) :
  2 ^ 104 <= n < 2 ^ 106 ->
  (Zdigits2 n = 105 /\ n < 2 ^ 105) \/ (Zdigits2 n = 106 /\ 2 ^ 105 <= n).
Proof.
  intros Hn.
  destruct (Z_lt_ge_dec n (2 ^ 105)) as [Hlt | Hge].
  - left. split; [apply Zdigits2_unique|]; lia.
  - right. split; [apply Zdigits2_unique|]; lia.
Qed.

Lemma mul_0_15_floor (t : Z) :
  0 < t < 2 ^ 53 ->
  exists k sh q,
    0 <= k <= 52 /\ 2 ^ 52 <= t * 2 ^ k < 2 ^ 53 /\
    ((sh = 52 /\ t * 2 ^ k * 5404319552844595 < 2 ^ 105) \/
     (sh = 53 /\ 2 ^ 105 <= t * 2 ^ k * 5404319552844595)) /\
    2 * Z.abs (q * 2 ^ sh - t * 2 ^ k * 5404319552844595) <= 2 ^ sh /\
    Page.feeLamports t = (q * 2 ^ sh) / (2 ^ k * 2 ^ 55).
Proof.
  intros Ht.
  destruct (of_Z_spec t Ht) as (k & Hk & Hmt & Hof).
  unfold Page.feeLamports, mul. rewrite Hof, lit_0_15_value. cbn [SFmul xorb].
  set (mt := t * 2 ^ k) in *.
  rewrite Pos2Z.inj_mul, Z2Pos.id by lia.
  set (n := mt * 5404319552844595).
  assert (Hn : 2 ^ 104 <= n < 2 ^ 106) by (unfold n; lia).
  assert (Hsh : exists sh, Zdigits2 n - 53 = sh /\
            ((sh = 52 /\ n < 2 ^ 105) \/ (sh = 53 /\ 2 ^ 105 <= n))).
  { destruct (Zdigits2_product n Hn) as [[HD Hb] | [HD Hb]]; rewrite HD.
    - exists 52. split; [reflexivity|]. left. split; [reflexivity | exact Hb].
    - exists 53. split; [reflexivity|]. right. split; [reflexivity | exact Hb]. }
  destruct Hsh as (sh & HD & Hcase).
  pose proof (binary_round_aux_spec false n (- k + -55)) as Hspec.
  rewrite HD in Hspec.
  destruct Hspec as (q & Hq & Hhalf & Hres); try lia.
  exists k, sh, q. split; [exact Hk|]. split; [exact Hmt|].
  split; [exact Hcase|]. split; [exact Hhalf|].
  assert (Hpow : 2 ^ k * 2 ^ 55 = 2 ^ (- (- k + -55))).
  { replace (- (- k + -55)) with (k + 55) by lia. rewrite Z.pow_add_r by lia. reflexivity. }
  rewrite Hpow.
  destruct Hres as [[Hlt ->] | [Heq ->]]; cbn [Math_floor].
  - rewrite Z2Pos.id by lia.
    rewrite (shiftl_scaled q (- k + -55 + sh) (- k + -55)) by lia.
    do 3 f_equal. lia.
  - rewrite Z2Pos.id by lia.
    rewrite (shiftl_scaled (2 ^ 52) (- k + -55 + sh + 1) (- k + -55)) by lia.
    f_equal. subst q.
    replace (- k + -55 + sh + 1 - (- k + -55)) with (sh + 1) by lia.
    rewrite Z.pow_add_r by lia. lia.
Qed.

Lemma feeLamports_exact (t : Z) :
  0 <= t < 7505999378950827 -> Page.feeLamports t = t * 15 / 100.
Proof.
  intros [Ht0 Ht].
  destruct (Z.eq_dec t 0) as [-> | Hne]; [vm_compute; reflexivity|].
  destruct (mul_0_15_floor t) as (k & sh & q & Hk & Hmt & Hcase & Hhalf & ->); [lia|].
  assert (HP : 1 <= 2 ^ k) by (pose proof (Z.pow_pos_nonneg 2 k); lia).
  set (P := 2 ^ k) in *.
  replace (t * 15 / 100) with (3 * t / 20)
    by (replace (t * 15) with (5 * (3 * t)) by lia;
        change 100 with (5 * 20); rewrite Z.div_mul_cancel_l by lia; reflexivity).
  pose proof (Z.div_mod (3 * t) 20 ltac:(lia)) as Hdm.
  pose proof (Z.mod_pos_bound (3 * t) 20 ltac:(lia)) as Hrho.
  set (F := 3 * t / 20) in *. set (rho := (3 * t) mod 20) in *.
  assert (HFP : 3 * (t * P) = 20 * (F * P) + rho * P) by nia.
  assert (HrP : 0 <= rho * P <= 19 * P) by nia.
  assert (Hk0 : P = 1 \/ 2 <= P).
  { destruct (Z.eq_dec k 0) as [-> | Hk1]; [left; reflexivity|].
    right. unfold P. replace k with (1 + (k - 1)) by lia.
    rewrite Z.pow_add_r by lia. pose proof (Z.pow_pos_nonneg 2 (k - 1)). lia. }
  symmetry. apply Z.div_unique with (r := q * 2 ^ sh - P * 2 ^ 55 * F).
  - left.
    set (mt := t * P) in *. set (FP := F * P) in *. set (rP := rho * P) in *.
    replace (P * 2 ^ 55 * F) with (2 ^ 55 * FP) by (unfold FP; lia).
    destruct Hcase as [[-> Hb] | [-> Hb]].
    + lia.
    + destruct Hk0 as [HP1 | HP2].
      * exfalso. unfold mt in Hb. rewrite HP1 in Hb. lia.
      * lia.
  - lia.
Qed.


Lemma feeLamports_range (t : Z) :
  0 <= t < 2 ^ 53 -> 0 <= Page.feeLamports t <= t.
Proof.
  intros [Ht0 Ht].
  destruct (Z.eq_dec t 0) as [-> | Hne]; [vm_compute; split; discriminate|].
  destruct (mul_0_15_floor t) as (k & sh & q & Hk & Hmt & Hcase & Hhalf & ->); [lia|].
  assert (HP : 1 <= 2 ^ k) by (pose proof (Z.pow_pos_nonneg 2 k); lia).
  set (P := 2 ^ k) in *. set (mt := t * P) in *.
  assert (Hsh : 0 < 2 ^ sh) by (destruct Hcase as [[-> _] | [-> _]]; lia).
  split.
  - apply Z.div_pos; [|lia]. destruct Hcase as [[-> _] | [-> _]]; lia.
  - apply Z.div_le_upper_bound; [lia|].
    replace (P * 2 ^ 55 * t) with (2 ^ 55 * mt) by (unfold mt; lia).
    destruct Hcase as [[-> _] | [-> _]]; lia.
Qed.

Lemma lit_0x100000000_value :
  lit_0x100000000 = S754_finite false 4503599627370496 (-20).
Proof. vm_compute. reflexivity. Qed.

Lemma div_eucl_exact (a b q : Z) :
  0 < b -> a = q * b -> Z.div_eucl a b = (q, 0).
Proof.
  intros Hb ->.
  pose proof (Z_div_mod (q * b) b ltac:(lia)) as H.
  destruct (Z.div_eucl (q * b) b) as [q' r]. destruct H as [Heq Hr].
  assert (q' = q) by nia. subst q'. f_equal. lia.
Qed.

Lemma div_0x100000000_floor (fee : Z) :
  0 <= fee < 2 ^ 53 ->
  Math_floor (div (of_Z fee) lit_0x100000000) = fee / 2 ^ 32.
Proof.
  intros [Hf0 Hf].
  destruct (Z.eq_dec fee 0) as [-> | Hne]; [vm_compute; reflexivity|].
  destruct (of_Z_spec fee) as (k & Hk & Hmf & Hof); [lia|].
  rewrite Hof, lit_0x100000000_value. unfold div. cbn [SFdiv xorb].
  set (mf := fee * 2 ^ k) in *.
  rewrite Z2Pos.id by lia.
  assert (Hcore : SFdiv_core_binary prec emax mf (- k) 4503599627370496 (-20)
                  = (2 * mf, -33 - k, loc_Exact)).
  { unfold SFdiv_core_binary.
    rewrite (Zdigits2_unique mf 53) by lia.
    change (Zdigits2 4503599627370496) with 53.
    assert (He : Z.min (fexp prec emax (53 + - k - (53 + -20))) (- k - -20) = -33 - k)
      by (unfold fexp, emin, prec, emax; lia).
    rewrite He.
    replace (- k - -20 - (-33 - k)) with 53 by lia.
    rewrite (div_eucl_exact (Z.shiftl mf 53) 4503599627370496 (2 * mf)).
    - reflexivity.
    - lia.
    - rewrite Z.shiftl_mul_pow2 by lia. lia. }
  rewrite Hcore.
  assert (Hd : Zdigits2 (2 * mf) = 54) by (apply Zdigits2_unique; lia).
  pose proof (binary_round_aux_spec false (2 * mf) (-33 - k)) as Hspec.
  rewrite Hd in Hspec. change (54 - 53) with 1 in Hspec.
  destruct Hspec as (q & Hq & Hhalf & Hres); try lia.
  rewrite Z.pow_1_r in Hhalf.
  assert (q = mf) by lia. subst q.
  destruct Hres as [[_ ->] | [Heq _]]; [|lia].
  cbn [Math_floor]. rewrite Z2Pos.id by lia.
  rewrite Z.shiftl_div_pow2 by lia.
  replace (- (-33 - k + 1)) with (32 + k) by lia.
  rewrite Z.pow_add_r by lia. unfold mf.
  assert (0 < 2 ^ k) by (apply Z.pow_pos_nonneg; lia).
  rewrite Z.div_mul_cancel_r by lia. reflexivity.
Qed.

End Binary64.

(** ** Fee computation *)

Section Fee.
Import Web3 Page.

Lemma totalLamports_acc (sel : list EmptyAccount) (z : Z) :
  fold_left (fun sum a => sum + lamports a) sel z = z + totalLamports sel.
Proof.
  unfold totalLamports. revert z.
  induction sel as [| a sel IH]; intros z; cbn [fold_left].
  - lia.
  - rewrite IH, (IH (0 + lamports a)). lia.
Qed.

Lemma totalLamports_nonneg (sel : list EmptyAccount) :
  Forall (fun a => 0 <= lamports a) sel -> 0 <= totalLamports sel.
Proof.
  induction 1 as [| a sel Ha _ IH]; unfold totalLamports; cbn [fold_left].
  - lia.
  - rewrite totalLamports_acc. lia.
Qed.

(** C1 (amended): the fee is [Math.floor] of the binary64 product
    [totalLamports * 0.15].  For every selection of non-negative balances
    whose total is below 7505999378950827 it equals the exact
    floor(totalLamports * 15 / 100), and fee plus net is the total. *)
Theorem fee_is_exact_floor_below_limit (sel : list EmptyAccount) :
  Forall (fun a => 0 <= lamports a) sel ->
  totalLamports sel < 7505999378950827 ->
  feeLamports (totalLamports sel) = totalLamports sel * 15 / 100 /\
  feeLamports (totalLamports sel) + netLamports (totalLamports sel)
  = totalLamports sel.
Proof.
  intros Hnn Hlim. pose proof (totalLamports_nonneg sel Hnn) as H0.
  split.
  - apply feeLamports_exact. lia.
  - unfold netLamports. lia.
Qed.

Lemma fee_is_exact_floor_below_limit_witness :
  let sel := [Sample.pageAccount Sample.accountKey 2039;
              Sample.pageAccount Sample.otherKey 5000] in
  totalLamports sel = 7039 /\
  feeLamports (totalLamports sel) = 1055 /\
  netLamports (totalLamports sel) = 5984.
Proof.
  intros sel.
  destruct (fee_is_exact_floor_below_limit sel) as [Hfee Hsum].
  - repeat constructor; cbn; lia.
  - vm_compute. reflexivity.
  - split; [reflexivity|]. split.
    + rewrite Hfee. reflexivity.
    + unfold netLamports. rewrite Hfee. reflexivity.
Defined.

(** C1 as stated fails: at a total of 7505999378950833 lamports the binary64
    product rounds up to an integer and the fee is one lamport above the
    exact floor. *)
Lemma fee_exact_floor_counterexample :
  let sel := [Sample.pageAccount Sample.accountKey 7505999378950833] in
  Forall (fun a => 0 <= lamports a) sel /\
  feeLamports (totalLamports sel) = 1125899906842625 /\
  totalLamports sel * 15 / 100 = 1125899906842624.
Proof.
  intros sel. split; [|split].
  - repeat constructor. cbn. lia.
  - vm_compute. reflexivity.
  - vm_compute. reflexivity.
Qed.

End Fee.

(** ** Fee transfer encoding and the instruction list *)

Section Instructions.
Import Web3 Page Reference.

Lemma le_bytes_mod (n : nat) (v : Z) :
  le_bytes n (v mod 256 ^ Z.of_nat n) = le_bytes n v.
Proof.
  revert v. induction n as [| n IH]; intros v; [reflexivity|].
  cbn [le_bytes].
  rewrite Nat2Z.inj_succ, Z.pow_succ_r by lia.
  assert (Hp : 0 < 256 ^ Z.of_nat n) by (apply Z.pow_pos_nonneg; lia).
  rewrite Z.rem_mul_r by lia.
  set (x := (v / 256) mod 256 ^ Z.of_nat n).
  pose proof (Z.mod_pos_bound v 256 ltac:(lia)) as Hlow.
  f_equal.
  - rewrite (Z.mul_comm 256 x), Z.mod_add by lia. apply Z.mod_mod. lia.
  - rewrite <- (IH (v / 256)). fold x. f_equal.
    symmetry. apply Z.div_unique with (r := v mod 256); lia.
Qed.

Lemma le_bytes_app (n m : nat) (v : Z) :
  le_bytes (n + m) v = le_bytes n v ++ le_bytes m (v / 256 ^ Z.of_nat n).
Proof.
  revert v. induction n as [| n IH]; intros v.
  - cbn [Nat.add le_bytes app Z.of_nat]. rewrite Z.pow_0_r, Z.div_1_r. reflexivity.
  - cbn [Nat.add le_bytes app]. f_equal. rewrite IH. do 2 f_equal.
    rewrite Nat2Z.inj_succ, Z.pow_succ_r by lia.
    rewrite Z.div_div by (try apply Z.pow_pos_nonneg; lia). reflexivity.
Qed.

Lemma le_value_le_bytes (n : nat) (v : Z) :
  le_value (le_bytes n v) = v mod 256 ^ Z.of_nat n.
Proof.
  revert v. induction n as [| n IH]; intros v.
  - cbn. rewrite Z.mod_1_r. reflexivity.
  - cbn [le_bytes le_value]. rewrite IH.
    rewrite Nat2Z.inj_succ, Z.pow_succ_r by lia.
    assert (Hp : 0 < 256 ^ Z.of_nat n) by (apply Z.pow_pos_nonneg; lia).
    rewrite Z.rem_mul_r by lia. reflexivity.
Qed.

Lemma le_bytes_range (n : nat) (v : Z) :
  Forall (fun b => 0 <= b < 256) (le_bytes n v).
Proof.
  revert v. induction n as [| n IH]; intros v; cbn [le_bytes]; constructor.
  - apply Z.mod_pos_bound. lia.
  - apply IH.
Qed.

Lemma le_bytes_4 (v : Z) :
  le_bytes 4 v
  = [v mod 256; (v / 2 ^ 8) mod 256; (v / 2 ^ 16) mod 256; (v / 2 ^ 24) mod 256].
Proof.
  cbn [le_bytes]. rewrite !Z.div_div by lia. reflexivity.
Qed.

Lemma writeUInt32LE_low (v b4 b5 b6 b7 : Z) (z0 z1 z2 z3 : Z) :
  0 <= v <= 4294967295 ->
  writeUInt32LE [z0; z1; z2; z3; b4; b5; b6; b7] v 0
  = inr (le_bytes 4 v ++ [b4; b5; b6; b7]).
Proof.
  intros Hv. unfold writeUInt32LE.
  replace (0 <=? v) with true by (symmetry; apply Z.leb_le; lia).
  replace (v <=? 4294967295) with true by (symmetry; apply Z.leb_le; lia).
  rewrite le_bytes_4. reflexivity.
Qed.

Lemma writeUInt32LE_high (v b0 b1 b2 b3 : Z) (z4 z5 z6 z7 : Z) :
  0 <= v <= 4294967295 ->
  writeUInt32LE [b0; b1; b2; b3; z4; z5; z6; z7] v 4
  = inr ([b0; b1; b2; b3] ++ le_bytes 4 v).
Proof.
  intros Hv. unfold writeUInt32LE.
  replace (0 <=? v) with true by (symmetry; apply Z.leb_le; lia).
  replace (v <=? 4294967295) with true by (symmetry; apply Z.leb_le; lia).
  rewrite le_bytes_4. reflexivity.
Qed.

Lemma feeBuffer_le_bytes (fee : Z) :
  0 <= fee < 2 ^ 53 -> feeBuffer fee = inr (le_bytes 8 fee).
Proof.
  intros Hfee. unfold feeBuffer, JsNumber.ushr0.
  rewrite div_0x100000000_floor by exact Hfee.
  change (replicate 8 0) with [0; 0; 0; 0; 0; 0; 0; 0].
  rewrite writeUInt32LE_low by (pose proof (Z.mod_pos_bound fee (2 ^ 32)); lia).
  rewrite le_bytes_4. cbn [app].
  rewrite writeUInt32LE_high.
  - rewrite <- le_bytes_4.
    change (2 ^ 32) with (256 ^ Z.of_nat 4).
    rewrite le_bytes_mod. change 8%nat with (4 + 4)%nat.
    rewrite (le_bytes_app 4 4 fee). reflexivity.
  - split; [apply Z.div_pos; lia|].
    assert (fee / 2 ^ 32 < 2 ^ 21) by (apply Z.div_lt_upper_bound; lia). lia.
Qed.

(** C9: for a fee below 2^53 the data of the fee transfer is the tag
    [2,0,0,0] followed by the eight little-endian bytes of the fee, which
    decode back to the fee. *)
Theorem fee_transfer_data_is_u64_little_endian
    (wallet FEE_RECIPIENT : PublicKey) (fee : Z) :
  0 <= fee < 2 ^ 53 ->
  exists ix,
    feeTransferInstruction wallet FEE_RECIPIENT fee = inr ix /\
    data ix = [2; 0; 0; 0] ++ le_bytes 8 fee /\
    le_value (le_bytes 8 fee) = fee /\
    Forall (fun b => 0 <= b < 256) (data ix).
Proof.
  intros Hfee. unfold feeTransferInstruction.
  rewrite feeBuffer_le_bytes by exact Hfee.
  eexists. split; [reflexivity|]. cbn [data].
  split; [reflexivity|]. split.
  - rewrite le_value_le_bytes. apply Z.mod_small.
    change (256 ^ Z.of_nat 8) with (2 ^ 64). lia.
  - apply Forall_app. split; [|apply le_bytes_range].
    repeat constructor; lia.
Qed.

Lemma fee_transfer_data_is_u64_little_endian_witness :
  exists ix,
    feeTransferInstruction Sample.walletKey Sample.otherKey 4294968351 = inr ix /\
    data ix = [2; 0; 0; 0; 31; 4; 0; 0; 1; 0; 0; 0].
Proof.
  destruct (fee_transfer_data_is_u64_little_endian
              Sample.walletKey Sample.otherKey 4294968351)
    as (ix & Hix & Hdata & _); [lia|].
  exists ix. split; [exact Hix|]. rewrite Hdata. reflexivity.
Defined.

End Instructions.

(** ** The scan *)

Section Scan.
Import Web3 Detection Reference.

Lemma equals_eq (a b : PublicKey) : equals a b = true <-> a = b.
Proof.
  destruct a as [x], b as [y]. unfold equals. cbn [bn].
  rewrite Z.eqb_eq. split; congruence.
Qed.

Lemma isAlreadyIncluded_elem_of (acc : list EmptyAccount) (key : PublicKey) :
  isAlreadyIncluded acc key = true <-> key ∈ (address <$> acc).
Proof.
  unfold isAlreadyIncluded. rewrite existsb_exists, list_elem_of_fmap.
  split.
  - intros (a & Ha & Heq). exists a. apply equals_eq in Heq.
    split; [congruence | now apply list_elem_of_In].
  - intros (a & Heq & Ha). exists a.
    split; [now apply list_elem_of_In | apply equals_eq; congruence].
Qed.

Lemma isAlreadyIncluded_false (acc : list EmptyAccount) (key : PublicKey) :
  isAlreadyIncluded acc key = false <-> key ∉ (address <$> acc).
Proof.
  rewrite <- isAlreadyIncluded_elem_of.
  destruct (isAlreadyIncluded acc key); split; congruence.
Qed.

Lemma extends_fresh_refl (Q : EmptyAccount -> Prop) (acc : list EmptyAccount) :
  extends_fresh Q acc acc.
Proof.
  exists []. split; [now rewrite app_nil_r|]. split; [apply NoDup_nil_2|].
  intros e He. now apply elem_of_nil in He.
Qed.

Lemma extends_fresh_push (Q : EmptyAccount -> Prop)
    (acc : list EmptyAccount) (e : EmptyAccount) :
  isAlreadyIncluded acc (address e) = false -> Q e ->
  extends_fresh Q acc (acc ++ [e]).
Proof.
  intros Hnew HQ. exists [e]. split; [reflexivity|]. split.
  - apply NoDup_singleton.
  - intros e' He'. apply list_elem_of_singleton in He'. subst e'.
    split; [now apply isAlreadyIncluded_false | exact HQ].
Qed.

Lemma extends_fresh_trans (Q : EmptyAccount -> Prop)
    (acc mid out : list EmptyAccount) :
  extends_fresh Q acc mid -> extends_fresh Q mid out -> extends_fresh Q acc out.
Proof.
  intros (ext1 & -> & Hnd1 & H1) (ext2 & -> & Hnd2 & H2).
  exists (ext1 ++ ext2). split; [now rewrite app_assoc|]. split.
  - rewrite fmap_app. apply NoDup_app. split; [exact Hnd1|]. split; [|exact Hnd2].
    intros k Hk1 Hk2. apply list_elem_of_fmap in Hk2 as (e & -> & He).
    destruct (H2 e He) as [Hfresh _]. apply Hfresh.
    rewrite fmap_app. apply elem_of_app. now right.
  - intros e He. apply elem_of_app in He as [He | He].
    + now apply H1.
    + destruct (H2 e He) as [Hfresh HQ]. split; [|exact HQ].
      intros Hin. apply Hfresh. rewrite fmap_app. apply elem_of_app. now left.
Qed.

Lemma extends_fresh_weaken (Q Q' : EmptyAccount -> Prop)
    (acc out : list EmptyAccount) :
  (forall e, Q e -> Q' e) -> extends_fresh Q acc out -> extends_fresh Q' acc out.
Proof.
  intros HQ (ext & -> & Hnd & H). exists ext. split; [reflexivity|].
  split; [exact Hnd|]. intros e He. destruct (H e He). split; auto.
Qed.

Lemma extends_fresh_fold {X : Type} (Q : EmptyAccount -> Prop)
    (step : list EmptyAccount -> X -> list EmptyAccount) :
  (forall acc x, extends_fresh Q acc (step acc x)) ->
  forall l acc, extends_fresh Q acc (fold_left step l acc).
Proof.
  intros Hstep. induction l as [| x l IH]; intros acc; cbn [fold_left].
  - apply extends_fresh_refl.
  - eapply extends_fresh_trans; [apply Hstep | apply IH].
Qed.

Lemma extends_fresh_NoDup (Q : EmptyAccount -> Prop)
    (acc out : list EmptyAccount) :
  extends_fresh Q acc out ->
  NoDup (address <$> acc) -> NoDup (address <$> out).
Proof.
  intros (ext & -> & Hnd & H) Hacc. rewrite fmap_app. apply NoDup_app.
  split; [exact Hacc|]. split; [|exact Hnd].
  intros k Hk1 Hk2. apply list_elem_of_fmap in Hk2 as (e & -> & He).
  now destruct (H e He).
Qed.

Lemma scanNftAccount_extends acc account :
  extends_fresh (fun e => type e = nft) acc (scanNftAccount acc account).
Proof.
  unfold scanNftAccount.
  destruct (amountIsZero account && _); [|apply extends_fresh_refl].
  destruct (isAlreadyIncluded acc (Rpc.pubkey account)) eqn:Hin; cbn [negb];
    [apply extends_fresh_refl|].
  now apply extends_fresh_push.
Qed.

Lemma scanAtaAccount_extends acc account :
  extends_fresh (fun e => type e = associated_token) acc
    (scanAtaAccount acc account).
Proof.
  unfold scanAtaAccount.
  destruct (0 <? _); [|apply extends_fresh_refl].
  destruct (isAlreadyIncluded acc (Rpc.pubkey account)) eqn:Hin; cbn [negb];
    [apply extends_fresh_refl|].
  now apply extends_fresh_push.
Qed.

Lemma scanProgramAccount_extends acc account :
  extends_fresh (fun e => type e = unknown) acc (scanProgramAccount acc account).
Proof.
  unfold scanProgramAccount.
  destruct (isAlreadyIncluded acc (Rpc.pubkey account)) eqn:Hin; cbn [negb andb];
    [apply extends_fresh_refl|].
  destruct (0 <? _); [|apply extends_fresh_refl].
  now apply extends_fresh_push.
Qed.

Lemma scanTokenAccount_fold (l : list (Rpc.Keyed Rpc.ParsedAccountData))
    (acc : list EmptyAccount) :
  fold_left scanTokenAccount l acc = acc ++ tokenEntries l.
Proof.
  unfold tokenEntries. revert acc.
  induction l as [| x l IH]; intros acc; cbn [fold_left List.filter].
  - now rewrite app_nil_r.
  - rewrite IH. unfold scanTokenAccount.
    destruct (amountIsZero x); [|reflexivity].
    rewrite fmap_cons, <- app_assoc. reflexivity.
Qed.

(** The later loops only add entries whose addresses are new. *)
Lemma later_loops_extend
    (nftAccounts : list (Rpc.Keyed Rpc.ParsedAccountData))
    (ataAccounts allProgramAccounts : list (Rpc.Keyed (list Z)))
    (acc : list EmptyAccount) :
  extends_fresh (fun e => type e <> token) acc
    (fold_left scanProgramAccount allProgramAccounts
       (fold_left scanAtaAccount ataAccounts
          (fold_left scanNftAccount nftAccounts acc))).
Proof.
  eapply extends_fresh_trans; [|eapply extends_fresh_trans].
  - eapply extends_fresh_weaken;
      [|apply (extends_fresh_fold _ scanNftAccount scanNftAccount_extends)].
    cbn beta. intros e ->. discriminate.
  - eapply extends_fresh_weaken;
      [|apply (extends_fresh_fold _ scanAtaAccount scanAtaAccount_extends)].
    cbn beta. intros e ->. discriminate.
  - eapply extends_fresh_weaken;
      [|apply (extends_fresh_fold _ scanProgramAccount scanProgramAccount_extends)].
    cbn beta. intros e ->. discriminate.
Qed.

(** A scan that returns has had all five queries answered, and its result
    is the four loops run in order. *)
Lemma scan_returns (connection : Rpc.Connection) (walletAddress : PublicKey)
    (out : list EmptyAccount) :
  scan connection walletAddress = inr out ->
  exists tokenAccounts nftAccounts ataAccounts allAccounts allProgramAccounts,
    Rpc.getParsedTokenAccountsByOwner connection 0%nat
      walletAddress TOKEN_PROGRAM_ID = inr tokenAccounts /\
    Rpc.getParsedTokenAccountsByOwner connection 1%nat
      walletAddress TOKEN_PROGRAM_ID = inr nftAccounts /\
    Rpc.getProgramAccounts connection ASSOCIATED_TOKEN_PROGRAM_ID
      [Rpc.mkMemcmp 32 (toBase58 walletAddress)] = inr ataAccounts /\
    Rpc.getAccountInfo connection walletAddress = inr allAccounts /\
    Rpc.getProgramAccounts connection walletAddress [] = inr allProgramAccounts /\
    out = fold_left scanProgramAccount allProgramAccounts
            (fold_left scanAtaAccount ataAccounts
               (fold_left scanNftAccount nftAccounts
                  (fold_left scanTokenAccount tokenAccounts []))).
Proof.
  unfold scan, detectReclaimableAccounts, try_catch, detectBody.
  unfold mbind, Async_bind, bind, await, console_log, throw, ret.
  destruct (Rpc.getParsedTokenAccountsByOwner connection 0%nat _ _)
    as [e1 | l1]; [discriminate|].
  destruct (Rpc.getParsedTokenAccountsByOwner connection 1%nat _ _)
    as [e2 | l2]; [discriminate|].
  destruct (Rpc.getProgramAccounts connection ASSOCIATED_TOKEN_PROGRAM_ID _)
    as [e3 | l3]; [discriminate|].
  destruct (Rpc.getAccountInfo connection walletAddress)
    as [e4 | i4]; [discriminate|].
  destruct (Rpc.getProgramAccounts connection walletAddress [])
    as [e5 | l5]; [discriminate|].
  cbn [snd]. intros [= <-]. exists l1, l2, l3, i4, l5. repeat split; reflexivity.
Qed.


Lemma fold_left_keeps_addresses {X : Type} (Q : EmptyAccount -> Prop)
    (step : list EmptyAccount -> X -> list EmptyAccount)
    (l : list X) (acc : list EmptyAccount) (key : PublicKey) :
  (forall acc x, extends_fresh Q acc (step acc x)) ->
  key ∈ (address <$> acc) -> key ∈ (address <$> fold_left step l acc).
Proof.
  intros Hstep Hkey.
  destruct (extends_fresh_fold Q step Hstep l acc) as (ext & -> & _).
  rewrite fmap_app. apply elem_of_app. now left.
Qed.

Lemma scanAtaAccount_fold_covers (l : list (Rpc.Keyed (list Z)))
    (acc : list EmptyAccount) (account : Rpc.Keyed (list Z)) :
  In account l -> 0 < Rpc.lamports (Rpc.account account) ->
  Rpc.pubkey account ∈ (address <$> fold_left scanAtaAccount l acc).
Proof.
  revert acc. induction l as [| x l IH]; intros acc Hin Hpos; [destruct Hin|].
  cbn [fold_left]. destruct Hin as [-> | Hin]; [|now apply IH].
  apply (fold_left_keeps_addresses _ scanAtaAccount l _ _ scanAtaAccount_extends).
  unfold scanAtaAccount.
  replace (0 <? Rpc.lamports (Rpc.account account)) with true
    by (symmetry; apply Z.ltb_lt; lia).
  destruct (isAlreadyIncluded acc (Rpc.pubkey account)) eqn:Hinc; cbn [negb].
  - now apply isAlreadyIncluded_elem_of.
  - rewrite fmap_app. apply elem_of_app. right. cbn. apply list_elem_of_singleton. reflexivity.
Qed.

Lemma scanProgramAccount_fold_covers (l : list (Rpc.Keyed (list Z)))
    (acc : list EmptyAccount) (account : Rpc.Keyed (list Z)) :
  In account l -> 0 < Rpc.lamports (Rpc.account account) ->
  Rpc.pubkey account ∈ (address <$> fold_left scanProgramAccount l acc).
Proof.
  revert acc. induction l as [| x l IH]; intros acc Hin Hpos; [destruct Hin|].
  cbn [fold_left]. destruct Hin as [-> | Hin]; [|now apply IH].
  apply (fold_left_keeps_addresses _ scanProgramAccount l _ _
           scanProgramAccount_extends).
  unfold scanProgramAccount.
  replace (0 <? Rpc.lamports (Rpc.account account)) with true
    by (symmetry; apply Z.ltb_lt; lia).
  destruct (isAlreadyIncluded acc (Rpc.pubkey account)) eqn:Hinc; cbn [negb andb].
  - now apply isAlreadyIncluded_elem_of.
  - rewrite fmap_app. apply elem_of_app. right. cbn. apply list_elem_of_singleton. reflexivity.
Qed.

Lemma scanNftAccount_fold_covers (l : list (Rpc.Keyed Rpc.ParsedAccountData))
    (acc : list EmptyAccount) (account : Rpc.Keyed Rpc.ParsedAccountData) :
  In account l -> amountIsZero account = true ->
  Rpc.decimals (Rpc.data (Rpc.account account)) = Some 0 ->
  Rpc.pubkey account ∈ (address <$> fold_left scanNftAccount l acc).
Proof.
  revert acc. induction l as [| x l IH]; intros acc Hin Hzero Hdec; [destruct Hin|].
  cbn [fold_left]. destruct Hin as [-> | Hin]; [|now apply IH].
  apply (fold_left_keeps_addresses _ scanNftAccount l _ _ scanNftAccount_extends).
  unfold scanNftAccount. rewrite Hzero, Hdec.
  rewrite bool_decide_eq_true_2 by reflexivity. cbn [andb].
  destruct (isAlreadyIncluded acc (Rpc.pubkey account)) eqn:Hinc; cbn [negb].
  - now apply isAlreadyIncluded_elem_of.
  - rewrite fmap_app. apply elem_of_app. right. cbn. apply list_elem_of_singleton. reflexivity.
Qed.

Lemma isAlreadyIncluded_reflag (f : bool -> bool) (acc : list EmptyAccount)
    (key : PublicKey) :
  isAlreadyIncluded (Flags.reflagEntry f <$> acc) key = isAlreadyIncluded acc key.
Proof.
  unfold isAlreadyIncluded. induction acc as [| e acc IH]; [reflexivity|].
  rewrite fmap_cons. cbn [existsb]. rewrite IH. reflexivity.
Qed.

Lemma fold_left_reflag {X : Type} (f : bool -> bool)
    (step : list EmptyAccount -> X -> list EmptyAccount) (g : X -> X) :
  (forall acc x,
     step (Flags.reflagEntry f <$> acc) (g x) = Flags.reflagEntry f <$> step acc x) ->
  forall l acc,
    fold_left step (g <$> l) (Flags.reflagEntry f <$> acc)
    = Flags.reflagEntry f <$> fold_left step l acc.
Proof.
  intros Hstep. induction l as [| x l IH]; intros acc; [reflexivity|].
  rewrite fmap_cons. cbn [fold_left]. rewrite Hstep. apply IH.
Qed.

Lemma scanTokenAccount_reflag (f : bool -> bool) acc account :
  scanTokenAccount (Flags.reflagEntry f <$> acc) (Flags.reflagKeyed f account)
  = Flags.reflagEntry f <$> scanTokenAccount acc account.
Proof.
  unfold scanTokenAccount.
  change (amountIsZero (Flags.reflagKeyed f account)) with (amountIsZero account).
  destruct (amountIsZero account); [|reflexivity].
  rewrite fmap_app. reflexivity.
Qed.

Lemma scanNftAccount_reflag (f : bool -> bool) acc account :
  scanNftAccount (Flags.reflagEntry f <$> acc) (Flags.reflagKeyed f account)
  = Flags.reflagEntry f <$> scanNftAccount acc account.
Proof.
  unfold scanNftAccount.
  change (amountIsZero (Flags.reflagKeyed f account)) with (amountIsZero account).
  change (Rpc.data (Rpc.account (Flags.reflagKeyed f account)))
    with (Rpc.data (Rpc.account account)).
  change (Rpc.pubkey (Flags.reflagKeyed f account)) with (Rpc.pubkey account).
  rewrite isAlreadyIncluded_reflag.
  destruct (amountIsZero account && _); [|reflexivity].
  destruct (isAlreadyIncluded acc (Rpc.pubkey account)); cbn [negb]; [reflexivity|].
  rewrite fmap_app. reflexivity.
Qed.

Lemma scanAtaAccount_reflag (f : bool -> bool) acc account :
  scanAtaAccount (Flags.reflagEntry f <$> acc) (Flags.reflagKeyed f account)
  = Flags.reflagEntry f <$> scanAtaAccount acc account.
Proof.
  unfold scanAtaAccount.
  change (Rpc.lamports (Rpc.account (Flags.reflagKeyed f account)))
    with (Rpc.lamports (Rpc.account account)).
  change (Rpc.pubkey (Flags.reflagKeyed f account)) with (Rpc.pubkey account).
  rewrite isAlreadyIncluded_reflag.
  destruct (0 <? _); [|reflexivity].
  destruct (isAlreadyIncluded acc (Rpc.pubkey account)); cbn [negb]; [reflexivity|].
  rewrite fmap_app. reflexivity.
Qed.

Lemma scanProgramAccount_reflag (f : bool -> bool) acc account :
  scanProgramAccount (Flags.reflagEntry f <$> acc) (Flags.reflagKeyed f account)
  = Flags.reflagEntry f <$> scanProgramAccount acc account.
Proof.
  unfold scanProgramAccount.
  change (Rpc.lamports (Rpc.account (Flags.reflagKeyed f account)))
    with (Rpc.lamports (Rpc.account account)).
  change (Rpc.pubkey (Flags.reflagKeyed f account)) with (Rpc.pubkey account).
  rewrite isAlreadyIncluded_reflag.
  destruct (isAlreadyIncluded acc (Rpc.pubkey account)); cbn [negb andb]; [reflexivity|].
  destruct (0 <? _); [|reflexivity].
  rewrite fmap_app. reflexivity.
Qed.

(** The scan of a ledger whose executable flags are sent through [f] is the
    scan of the ledger, with the flags of the entries sent through [f]: the
    same error, or the same entries in the same order. *)
Lemma scan_reflag (f : bool -> bool) (connection : Rpc.Connection)
    (walletAddress : PublicKey) :
  scan (Flags.reflagConnection f connection) walletAddress
  = match scan connection walletAddress with
    | inl e => inl e
    | inr out => inr (Flags.reflagEntry f <$> out)
    end.
Proof.
  unfold scan, detectReclaimableAccounts, try_catch, detectBody.
  unfold mbind, Async_bind, bind, await, console_log, throw, ret.
  unfold Flags.reflagConnection.
  cbn [Rpc.getParsedTokenAccountsByOwner Rpc.getProgramAccounts Rpc.getAccountInfo].
  destruct (Rpc.getParsedTokenAccountsByOwner connection 0%nat _ _)
    as [e1 | l1]; [reflexivity|].
  destruct (Rpc.getParsedTokenAccountsByOwner connection 1%nat _ _)
    as [e2 | l2]; [reflexivity|].
  destruct (Rpc.getProgramAccounts connection ASSOCIATED_TOKEN_PROGRAM_ID _)
    as [e3 | l3]; [reflexivity|].
  destruct (Rpc.getAccountInfo connection walletAddress)
    as [e4 | i4]; [reflexivity|].
  destruct (Rpc.getProgramAccounts connection walletAddress [])
    as [e5 | l5]; [reflexivity|].
  cbn [Flags.reflagAnswer snd]. f_equal.
  change (@nil EmptyAccount) with (Flags.reflagEntry f <$> @nil EmptyAccount) at 1.
  rewrite (fold_left_reflag f scanTokenAccount _ (scanTokenAccount_reflag f)).
  rewrite (fold_left_reflag f scanNftAccount _ (scanNftAccount_reflag f)).
  rewrite (fold_left_reflag f scanAtaAccount _ (scanAtaAccount_reflag f)).
  rewrite (fold_left_reflag f scanProgramAccount _ (scanProgramAccount_reflag f)).
  reflexivity.
Qed.

(** Entries of the first loop keep the tag [token]: no later loop adds an
    entry for an address the first loop has pushed. *)
Lemma token_query_candidates_stay_token
    (connection : Rpc.Connection) (walletAddress : PublicKey)
    (out : list EmptyAccount)
    (tokenAccounts : list (Rpc.Keyed Rpc.ParsedAccountData))
    (account : Rpc.Keyed Rpc.ParsedAccountData) (e : EmptyAccount) :
  scan connection walletAddress = inr out ->
  Rpc.getParsedTokenAccountsByOwner connection 0%nat
    walletAddress TOKEN_PROGRAM_ID = inr tokenAccounts ->
  In account tokenAccounts -> amountIsZero account = true ->
  e ∈ out -> address e = Rpc.pubkey account -> type e = token.
Proof.
  intros Hscan Hq Hacc Hzero He Haddr.
  apply scan_returns in Hscan
    as (l1 & l2 & l3 & i4 & l5 & Hq1 & _ & _ & _ & _ & ->).
  rewrite Hq in Hq1. injection Hq1 as <-.
  rewrite scanTokenAccount_fold in He. cbn [app] in He.
  destruct (later_loops_extend l2 l3 l5 (tokenEntries tokenAccounts))
    as (ext & Hout & _ & Hext).
  rewrite Hout in He. apply elem_of_app in He as [He | He].
  - unfold tokenEntries in He. apply list_elem_of_fmap in He as (a & -> & _).
    reflexivity.
  - exfalso. destruct (Hext e He) as [Hfresh _]. apply Hfresh.
    rewrite Haddr. unfold tokenEntries. rewrite <- list_fmap_compose.
    apply list_elem_of_fmap. exists account. split; [reflexivity|].
    apply list_elem_of_In, filter_In. now split.
Qed.

(** When the zero-amount entries of the first token answer have distinct
    keys, the result has one entry per address. *)
Lemma scan_addresses_distinct
    (connection : Rpc.Connection) (walletAddress : PublicKey)
    (out : list EmptyAccount)
    (tokenAccounts : list (Rpc.Keyed Rpc.ParsedAccountData)) :
  scan connection walletAddress = inr out ->
  Rpc.getParsedTokenAccountsByOwner connection 0%nat
    walletAddress TOKEN_PROGRAM_ID = inr tokenAccounts ->
  NoDup (Rpc.pubkey <$> List.filter amountIsZero tokenAccounts) ->
  NoDup (address <$> out).
Proof.
  intros Hscan Hq Hnd.
  apply scan_returns in Hscan
    as (l1 & l2 & l3 & i4 & l5 & Hq1 & _ & _ & _ & _ & ->).
  rewrite Hq in Hq1. injection Hq1 as <-.
  rewrite scanTokenAccount_fold. cbn [app].
  eapply extends_fresh_NoDup; [apply later_loops_extend|].
  unfold tokenEntries. rewrite <- list_fmap_compose. exact Hnd.
Qed.

(** C2 (the code departs from the claim): a token-program account with
    amount "0" and decimals 0, returned by both token queries, comes out of
    the scan tagged [token]; the NFT loop finds it already included. *)
Theorem nft_shaped_account_is_tagged_token :
  let account := Sample.tokenAccount Sample.accountKey "0" (Some 0) false in
  Rpc.owner (Rpc.account account) = TOKEN_PROGRAM_ID /\
  Rpc.tokenAmount_amount (Rpc.data (Rpc.account account)) = "0"%string /\
  Rpc.decimals (Rpc.data (Rpc.account account)) = Some 0 /\
  scan (Sample.ledger [account] (inr []) (inr [])) Sample.walletKey
  = inr [pushed account token "TokenkegQfeZyiNwAJbNbGKPFXCWuBvf9Ss623VQ5DA"].
Proof. vm_compute. repeat split; reflexivity. Qed.

(** C3 (the code departs from the claim): the first loop pushes without
    looking for the address, so a token answer that repeats a key yields two
    entries with the same address. *)
Theorem repeated_token_key_is_kept_twice :
  let account := Sample.tokenAccount Sample.accountKey "0" (Some 9) false in
  exists e1 e2,
    scan (Sample.ledger [account; account] (inr []) (inr [])) Sample.walletKey
    = inr [e1; e2] /\
    address e1 = address e2.
Proof. vm_compute. eexists _, _. split; reflexivity. Qed.

(** C7 (the code departs from the claim): an account found by the last
    loop and owned by the token program is stored as [unknown]. *)
Theorem token_owned_program_account_is_stored_unknown :
  let account := Sample.rawAccount Sample.accountKey TOKEN_PROGRAM_ID 2039280 in
  exists e,
    scan (Sample.ledger [] (inr []) (inr [account])) Sample.walletKey = inr [e] /\
    address e = Sample.accountKey /\
    owner e = TOKEN_PROGRAM_ID /\
    programId e = toBase58 TOKEN_PROGRAM_ID /\
    type e = unknown.
Proof. vm_compute. eexists. repeat split; reflexivity. Qed.

(** C8 as stated fails: an executable token account with amount "0" is
    part of the result, flag included. *)
Lemma executable_account_counterexample :
  let account := Sample.tokenAccount Sample.accountKey "0" (Some 9) true in
  Rpc.executable (Rpc.account account) = true /\
  exists e,
    scan (Sample.ledger [account] (inr []) (inr [])) Sample.walletKey = inr [e] /\
    address e = Rpc.pubkey account /\ executable e = true.
Proof. vm_compute. split; [reflexivity|]. eexists. repeat split; reflexivity. Qed.

(** C8 (amended): the scan does not look at the executable flag.  Every
    zero-amount record of the first token answer is in the result with its
    flag copied; every record of the second token answer with amount "0" and
    0 decimals, and every record of the associated-token and all-programs
    answers with a positive balance, has its address in the result, whatever
    its flag is.  Changing the flags of the ledger records changes nothing
    in the result but the flags copied into the entries. *)
Theorem executable_flag_is_not_filtered
    (connection : Rpc.Connection) (walletAddress : PublicKey)
    (out : list EmptyAccount) :
  scan connection walletAddress = inr out ->
  (forall tokenAccounts account,
      Rpc.getParsedTokenAccountsByOwner connection 0%nat
        walletAddress TOKEN_PROGRAM_ID = inr tokenAccounts ->
      In account tokenAccounts -> amountIsZero account = true ->
      exists e, e ∈ out /\ address e = Rpc.pubkey account /\
                executable e = Rpc.executable (Rpc.account account)) /\
  (forall nftAccounts account,
      Rpc.getParsedTokenAccountsByOwner connection 1%nat
        walletAddress TOKEN_PROGRAM_ID = inr nftAccounts ->
      In account nftAccounts -> amountIsZero account = true ->
      Rpc.decimals (Rpc.data (Rpc.account account)) = Some 0 ->
      Rpc.pubkey account ∈ (address <$> out)) /\
  (forall accounts account,
      Rpc.getProgramAccounts connection ASSOCIATED_TOKEN_PROGRAM_ID
        [Rpc.mkMemcmp 32 (toBase58 walletAddress)] = inr accounts \/
      Rpc.getProgramAccounts connection walletAddress [] = inr accounts ->
      In account accounts -> 0 < Rpc.lamports (Rpc.account account) ->
      Rpc.pubkey account ∈ (address <$> out)) /\
  (forall f : bool -> bool,
      scan (Flags.reflagConnection f connection) walletAddress
      = inr (Flags.reflagEntry f <$> out)).
Proof.
  intros Hscan. pose proof Hscan as Hscan'.
  apply scan_returns in Hscan
    as (l1 & l2 & l3 & i4 & l5 & Hq1 & Hq2 & Hq3 & _ & Hq5 & ->).
  split; [|split; [|split]].
  - intros tokenAccounts account Hq Hacc Hzero.
    rewrite Hq in Hq1. injection Hq1 as <-.
    exists (pushed account token (toBase58 TOKEN_PROGRAM_ID)).
    split; [|split; reflexivity].
    rewrite scanTokenAccount_fold. cbn [app].
    destruct (later_loops_extend l2 l3 l5 (tokenEntries tokenAccounts))
      as (ext & -> & _). apply elem_of_app. left.
    unfold tokenEntries. apply list_elem_of_fmap. exists account.
    split; [reflexivity|]. apply list_elem_of_In, filter_In. now split.
  - intros nftAccounts account Hq Hacc Hzero Hdec.
    rewrite Hq in Hq2. injection Hq2 as <-.
    apply (fold_left_keeps_addresses _ scanProgramAccount l5 _ _
             scanProgramAccount_extends).
    apply (fold_left_keeps_addresses _ scanAtaAccount l3 _ _
             scanAtaAccount_extends).
    now apply scanNftAccount_fold_covers.
  - intros accounts account Hq Hacc Hpos.
    destruct Hq as [Hq | Hq].
    + rewrite Hq in Hq3. injection Hq3 as <-.
      destruct (extends_fresh_fold _ scanProgramAccount scanProgramAccount_extends
                  l5 (fold_left scanAtaAccount accounts
                        (fold_left scanNftAccount l2
                           (fold_left scanTokenAccount l1 []))))
        as (ext & -> & _).
      rewrite fmap_app. apply elem_of_app. left.
      now apply scanAtaAccount_fold_covers.
    + rewrite Hq in Hq5. injection Hq5 as <-.
      now apply scanProgramAccount_fold_covers.
  - intros f. rewrite scan_reflag, Hscan'. reflexivity.
Qed.

(** C5 as stated fails: the token query yields a candidate, the
    associated-token query throws, and the caller gets the error alone. *)
Lemma failed_query_counterexample :
  let account := Sample.tokenAccount Sample.accountKey "0" (Some 9) false in
  let connection :=
    Sample.ledger [account] (inl "429 Too Many Requests"%string) (inr []) in
  queryOutcomes connection Sample.walletKey
  = [None; None; Some "429 Too Many Requests"%string; None; None] /\
  tokenEntries [account] <> [] /\
  scan connection Sample.walletKey = inl "429 Too Many Requests"%string.
Proof.
  vm_compute. split; [reflexivity|]. split; [discriminate | reflexivity].
Qed.

(** C5 (amended): when a query of the scan throws, the scan stops there.
    The error of the first failing query is logged and rethrown, the later
    queries are not started, and no candidate is returned. *)
Theorem query_failure_aborts_scan
    (connection : Rpc.Connection) (walletAddress : PublicKey) (e : JsError) :
  Some e ∈ queryOutcomes connection walletAddress ->
  exists (i : nat) (e' : JsError),
    queryOutcomes connection walletAddress !! i = Some (Some e') /\
    (forall j, (j < i)%nat ->
       queryOutcomes connection walletAddress !! j = Some None) /\
    detectReclaimableAccounts connection walletAddress []
    = (take (S i) progressLines
         ++ [("Error detecting reclaimable accounts: " ++ e')%string],
       inl e').
Proof.
  unfold queryOutcomes, detectReclaimableAccounts, try_catch, detectBody.
  unfold mbind, Async_bind, bind, await, console_log, throw, ret.
  intros He.
  destruct (Rpc.getParsedTokenAccountsByOwner connection 0%nat _ _)
    as [e1 | l1].
  { exists 0%nat, e1. split; [reflexivity|]. split; [|reflexivity].
    intros j Hj. lia. }
  destruct (Rpc.getParsedTokenAccountsByOwner connection 1%nat _ _)
    as [e2 | l2].
  { exists 1%nat, e2. split; [reflexivity|]. split; [|reflexivity].
    intros [| j] Hj; [reflexivity | lia]. }
  destruct (Rpc.getProgramAccounts connection ASSOCIATED_TOKEN_PROGRAM_ID _)
    as [e3 | l3].
  { exists 2%nat, e3. split; [reflexivity|]. split; [|reflexivity].
    intros [| [| j]] Hj; [reflexivity | reflexivity | lia]. }
  destruct (Rpc.getAccountInfo connection walletAddress) as [e4 | i4].
  { exists 3%nat, e4. split; [reflexivity|]. split; [|reflexivity].
    intros [| [| [| j]]] Hj; [reflexivity | reflexivity | reflexivity | lia]. }
  destruct (Rpc.getProgramAccounts connection walletAddress []) as [e5 | l5].
  { exists 4%nat, e5. split; [reflexivity|]. split; [|reflexivity].
    intros [| [| [| [| j]]]] Hj;
      [reflexivity | reflexivity | reflexivity | reflexivity | lia]. }
  exfalso. cbn [thrown] in He.
  repeat (apply elem_of_cons in He as [He | He]; [discriminate|]).
  now apply elem_of_nil in He.
Qed.

Lemma query_failure_aborts_scan_witness :
  let connection :=
    Sample.ledger [Sample.tokenAccount Sample.accountKey "0" (Some 9) false]
      (inl "429 Too Many Requests"%string) (inr []) in
  exists (i : nat) (e' : JsError),
    queryOutcomes connection Sample.walletKey !! i = Some (Some e') /\
    scan connection Sample.walletKey = inl e'.
Proof.
  intros connection.
  destruct (query_failure_aborts_scan connection Sample.walletKey
              "429 Too Many Requests"%string)
    as (i & e' & Hi & _ & Hrun).
  - apply list_elem_of_In. vm_compute. right. right. left. reflexivity.
  - exists i, e'. split; [exact Hi|]. unfold scan. rewrite Hrun. reflexivity.
Defined.

Lemma executable_flag_is_not_filtered_witness :
  let account := Sample.tokenAccount Sample.accountKey "0" (Some 9) true in
  let nftAccount := Sample.tokenAccount Sample.otherKey "0" (Some 0) true in
  let connection := Sample.ledger [account; nftAccount] (inr []) (inr []) in
  let out := [pushed account token (toBase58 TOKEN_PROGRAM_ID);
              pushed nftAccount token (toBase58 TOKEN_PROGRAM_ID)] in
  (exists e, e ∈ out /\ address e = Sample.accountKey /\ executable e = true) /\
  Sample.otherKey ∈ (address <$> out) /\
  scan (Flags.reflagConnection negb connection) Sample.walletKey
  = inr (Flags.reflagEntry negb <$> out).
Proof.
  intros account nftAccount connection out.
  destruct (executable_flag_is_not_filtered connection Sample.walletKey out)
    as (Htoken & Hnft & _ & Hflags).
  - vm_compute. reflexivity.
  - split; [|split].
    + destruct (Htoken [account; nftAccount] account) as (e & He & Haddr & Hexec).
      * reflexivity.
      * now left.
      * reflexivity.
      * exists e. split; [exact He|]. split; [exact Haddr | exact Hexec].
    + apply (Hnft [account; nftAccount] nftAccount).
      * reflexivity.
      * right. now left.
      * reflexivity.
      * reflexivity.
    + apply Hflags.
Defined.

End Scan.

(** ** The reclaim transaction *)

Section Reclaim.
Import Web3 Page Reference.

(** The number of displayed accounts whose address is selected is the size
    of the selection when no address is displayed twice and every selected
    address is displayed. *)
Lemma selected_accounts_count
    (accounts : list EmptyAccount) (selected : gset string) :
  NoDup ((fun a => toString (address a)) <$> accounts) ->
  (forall key, key ∈ selected ->
     key ∈ ((fun a => toString (address a)) <$> accounts)) ->
  length (filter (fun a => toString (address a) ∈ selected) accounts)
  = size selected.
Proof.
  intros Hnd Hshown.
  pose (text := fun a : EmptyAccount => toString (address a)).
  pose (closed := filter (fun a => text a ∈ selected) accounts).
  change (length closed = size selected).
  change (NoDup (text <$> accounts)) in Hnd.
  assert (Hnd' : NoDup (text <$> closed)).
  { apply (sublist_NoDup _ (text <$> accounts)); [exact Hnd|].
    apply fmap_sublist, sublist_filter. }
  rewrite <- (length_fmap text closed), <- (size_list_to_set (C := gset string)) by exact Hnd'.
  f_equal. apply set_eq. intros key. rewrite elem_of_list_to_set, list_elem_of_fmap.
  split.
  - intros (a & -> & Ha). apply list_elem_of_filter in Ha as [Ha _]. exact Ha.
  - intros Hkey. pose proof (Hshown key Hkey) as Hk.
    apply list_elem_of_fmap in Hk as (a & -> & Ha).
    exists a. split; [reflexivity|]. apply list_elem_of_filter. now split.
Qed.

(** C4 as stated fails: the close instructions follow the displayed
    accounts, not the selection.  With one address selected and displayed
    twice the list has two close instructions for it; with one address
    selected and not displayed the list has no close instruction at all. *)
Lemma close_instructions_counterexample :
  let world := Sample.world Sample.signatureA Sample.processed in
  let twice :=
    mkState true (Some Sample.walletKey) (toString Sample.walletKey) false
      [Sample.pageAccount Sample.accountKey 2039;
       Sample.pageAccount Sample.accountKey 2039]
      {[ toString Sample.accountKey ]} JsNumber.zero "" "" in
  let stale :=
    mkState true (Some Sample.walletKey) (toString Sample.walletKey) false
      [Sample.pageAccount Sample.accountKey 2039]
      {[ toString Sample.otherKey ]} JsNumber.zero "" "" in
  size (selectedAccounts twice) = 1%nat /\
  reclaimInstructions twice world Sample.walletKey
  = inr [createCloseAccountInstruction Sample.accountKey
           Sample.walletKey Sample.walletKey;
         createCloseAccountInstruction Sample.accountKey
           Sample.walletKey Sample.walletKey;
         systemTransfer Sample.walletKey ASSOCIATED_TOKEN_PROGRAM_ID 611] /\
  size (selectedAccounts stale) = 1%nat /\
  reclaimInstructions stale world Sample.walletKey
  = inr [systemTransfer Sample.walletKey ASSOCIATED_TOKEN_PROGRAM_ID 0].
Proof.
  vm_compute. split; [reflexivity|]. split; [reflexivity|].
  split; reflexivity.
Qed.

(** C4 (amended): the instruction list is one close instruction per
    displayed account whose address is in the selection, in the order of the
    displayed account list, each paying out to the wallet with the wallet as
    authority, followed by a single System program transfer of the fee on
    the closed balances from the wallet to the fee recipient.  That is one
    close instruction per selected address when no address is displayed
    twice and every selected address is displayed. *)
Theorem reclaim_instruction_sequence
    (st : State) (world : World) (wallet FEE_RECIPIENT : PublicKey) :
  PublicKey_new (default ""%string (NEXT_PUBLIC_FEE_RECIPIENT world))
  = inr FEE_RECIPIENT ->
  Forall (fun a => 0 <= lamports a)
    (filter (fun a => toString (address a) ∈ selectedAccounts st) (accounts st)) ->
  totalLamports
    (filter (fun a => toString (address a) ∈ selectedAccounts st) (accounts st))
  < 2 ^ 53 ->
  reclaimInstructions st world wallet
  = inr (map (fun a => createCloseAccountInstruction (address a) wallet wallet)
           (filter (fun a => toString (address a) ∈ selectedAccounts st)
                   (accounts st))
         ++ [systemTransfer wallet FEE_RECIPIENT
               (feeLamports
                  (totalLamports
                     (filter (fun a => toString (address a) ∈ selectedAccounts st)
                             (accounts st))))]) /\
  (forall a,
     a ∈ filter (fun a => toString (address a) ∈ selectedAccounts st) (accounts st)
     <-> a ∈ accounts st /\ toString (address a) ∈ selectedAccounts st) /\
  sublist (filter (fun a => toString (address a) ∈ selectedAccounts st) (accounts st))
          (accounts st) /\
  (NoDup ((fun a => toString (address a)) <$> accounts st) ->
   (forall key, key ∈ selectedAccounts st ->
      key ∈ ((fun a => toString (address a)) <$> accounts st)) ->
   length (filter (fun a => toString (address a) ∈ selectedAccounts st)
                  (accounts st))
   = size (selectedAccounts st)) /\
  SYSTEM_PROGRAM_ID <> TOKEN_PROGRAM_ID.
Proof.
  intros Hrcpt Hnn Htotal.
  pose proof (totalLamports_nonneg _ Hnn) as H0.
  pose proof (feeLamports_range _ ltac:(split; [exact H0 | exact Htotal])) as Hfee.
  split; [|split; [|split; [|split]]].
  - unfold reclaimInstructions. rewrite Hrcpt.
    unfold buildInstructions, feeTransferInstruction, selectedAccountPubkeys.
    rewrite feeBuffer_le_bytes by lia. reflexivity.
  - intros a. rewrite list_elem_of_filter. tauto.
  - apply sublist_filter.
  - apply selected_accounts_count.
  - discriminate.
Qed.

Lemma reclaim_instruction_sequence_witness :
  (exists close1 close2 transfer,
    reclaimInstructions Sample.state
      (Sample.world Sample.signatureA Sample.processed) Sample.walletKey
    = inr [close1; close2; transfer] /\
    close1 = createCloseAccountInstruction Sample.accountKey
               Sample.walletKey Sample.walletKey /\
    close2 = createCloseAccountInstruction Sample.otherKey
               Sample.walletKey Sample.walletKey /\
    transfer = systemTransfer Sample.walletKey
                 ASSOCIATED_TOKEN_PROGRAM_ID 1055) /\
  size (selectedAccounts Sample.state) = 2%nat.
Proof.
  destruct (reclaim_instruction_sequence Sample.state
              (Sample.world Sample.signatureA Sample.processed)
              Sample.walletKey ASSOCIATED_TOKEN_PROGRAM_ID)
    as (Hix & _ & _ & Hcount & _).
  - vm_compute. reflexivity.
  - vm_compute. repeat constructor; discriminate.
  - vm_compute. reflexivity.
  - split.
    + rewrite Hix. vm_compute. eexists _, _, _. repeat split; reflexivity.
    + rewrite <- Hcount.
      * vm_compute. reflexivity.
      * apply (bool_decide_unpack _). vm_compute. exact I.
      * intros key Hkey. apply list_elem_of_In.
        apply elem_of_union in Hkey as [Hkey | Hkey];
          apply elem_of_singleton in Hkey; subst key; vm_compute; auto.
Defined.

Lemma pollLoop_spec (getStatus : nat -> StatusResponse) (n i : nat) :
  (i <= snd (pollLoop n i getStatus) <= i + n)%nat /\
  (forall j, (i <= j)%nat ->
     (j < snd (pollLoop n i getStatus)
          - (if fst (pollLoop n i getStatus) then 1 else 0))%nat ->
     reachedConfirmed (getStatus j) = false) /\
  (fst (pollLoop n i getStatus) = true ->
     (i < snd (pollLoop n i getStatus))%nat /\
     reachedConfirmed (getStatus (snd (pollLoop n i getStatus) - 1)%nat) = true) /\
  (fst (pollLoop n i getStatus) = false ->
     snd (pollLoop n i getStatus) = (i + n)%nat).
Proof.
  revert i. induction n as [| n IH]; intros i; cbn [pollLoop].
  - cbn [fst snd]. split; [lia|]. split; [intros j Hj1 Hj2; lia|].
    split; [discriminate | intros _; lia].
  - destruct (reachedConfirmed (getStatus i)) eqn:Hi.
    + cbn [fst snd]. split; [lia|]. split; [intros j Hj1 Hj2; lia|].
      split; [|discriminate]. intros _. split; [lia|].
      replace (S i - 1)%nat with i by lia. exact Hi.
    + destruct (IH (S i)) as (Hb & Hnot & Hyes & Hno).
      split; [lia|]. split; [|split].
      * intros j Hj1 Hj2. destruct (Nat.eq_dec j i) as [-> | Hne];
          [exact Hi | apply Hnot; lia].
      * intros Hc. destruct (Hyes Hc). split; [lia | assumption].
      * intros Hc. rewrite (Hno Hc). lia.
Qed.

(** C6 as stated fails: when polling times out, what [reclaimSOL] hands
    back holds only the first 20 characters of the transaction identifier.
    Two transactions whose identifiers differ later leave the same state. *)
Lemma timed_out_identifier_counterexample :
  let worldA := Sample.world Sample.signatureA Sample.processed in
  let worldB := Sample.world Sample.signatureB Sample.processed in
  Sample.signatureA <> Sample.signatureB /\
  fst (pollConfirmation (getSignatureStatus worldA Sample.signatureA)) = false /\
  fst (pollConfirmation (getSignatureStatus worldB Sample.signatureB)) = false /\
  reclaimSOL Sample.toFixed4 Sample.state worldA
  = reclaimSOL Sample.toFixed4 Sample.state worldB /\
  status (reclaimSOL Sample.toFixed4 Sample.state worldA)
  = ("✅ Transaction submitted! Tx: 5VERv8NMvzbJMEkV8xnr..."
     ++ String "010" "Check Solscan for final confirmation status.")%string.
Proof.
  vm_compute. split; [discriminate|]. repeat split; reflexivity.
Qed.

(** C6 (amended): once the transaction is sent, its status is queried at
    most 60 times, no query follows one that reports "confirmed" or
    "finalized", and when none of the 60 does the outcome is the "Transaction
    submitted" status with an empty error; that status carries the first 20
    characters of the transaction identifier. *)
Theorem polling_is_bounded_and_timeout_is_pending
    (solToFixed4 : Z -> string) (st : State) (world : World)
    (wallet : PublicKey) (instructions : list TransactionInstruction)
    (blockhash : string) (signedTx : Transaction) (signature : string) :
  Page.wallet st = Some wallet -> connected st = true ->
  toString wallet = publicAddress st ->
  size (selectedAccounts st) <> 0%nat ->
  reclaimInstructions st world wallet = inr instructions ->
  getLatestBlockhash world = inr blockhash ->
  signTransaction world (mkTransaction blockhash wallet instructions)
  = inr signedTx ->
  sendRawTransaction world signedTx = inr signature ->
  let poll := pollConfirmation (getSignatureStatus world signature) in
  let final := reclaimSOL solToFixed4 st world in
  (snd poll <= 60)%nat /\
  (forall j, (j < snd poll - (if fst poll then 1 else 0))%nat ->
     reachedConfirmed (getSignatureStatus world signature j) = false) /\
  (fst poll = true ->
     reachedConfirmed
       (getSignatureStatus world signature (snd poll - 1)%nat) = true) /\
  (fst poll = false ->
     snd poll = 60%nat /\
     error final = ""%string /\
     status final
     = ("✅ Transaction submitted! Tx: " ++ substring 0 20 signature ++ "..."
        ++ String "010" "Check Solscan for final confirmation status.")%string).
Proof.
  intros Hw Hc Hmatch Hsel Hix Hbh Hsign Hsend poll final.
  destruct (pollLoop_spec (getSignatureStatus world signature) 60 0)
    as (Hb & Hnot & Hyes & Hno).
  fold (pollConfirmation (getSignatureStatus world signature)) in *.
  fold poll in Hb, Hnot, Hyes, Hno.
  split; [lia|]. split; [|split].
  - intros j Hj. apply Hnot; lia.
  - intros Hconf. now destruct (Hyes Hconf).
  - intros Htimeout. split; [exact (Hno Htimeout)|].
    unfold final, reclaimSOL. rewrite Hw, Hc, Hmatch, String.eqb_refl.
    cbn [negb].
    destruct (size (selectedAccounts st)) as [| k] eqn:Hsize; [contradiction|].
    cbn [Nat.eqb]. unfold reclaimTry.
    rewrite Hix, Hbh, Hsign, Hsend. fold poll. rewrite Htimeout.
    cbn [error status]. split; reflexivity.
Qed.

Lemma polling_is_bounded_and_timeout_is_pending_witness :
  let world := Sample.world Sample.signatureA Sample.processed in
  let poll := pollConfirmation (getSignatureStatus world Sample.signatureA) in
  poll = (false, 60%nat) /\
  error (reclaimSOL Sample.toFixed4 Sample.state world) = ""%string.
Proof.
  intros world poll.
  destruct (polling_is_bounded_and_timeout_is_pending Sample.toFixed4
              Sample.state world Sample.walletKey
              [createCloseAccountInstruction Sample.accountKey
                 Sample.walletKey Sample.walletKey;
               createCloseAccountInstruction Sample.otherKey
                 Sample.walletKey Sample.walletKey;
               systemTransfer Sample.walletKey ASSOCIATED_TOKEN_PROGRAM_ID 1055]
              "blockhash"%string
              (mkTransaction "blockhash"
                 Sample.walletKey
                 [createCloseAccountInstruction Sample.accountKey
                    Sample.walletKey Sample.walletKey;
                  createCloseAccountInstruction Sample.otherKey
                    Sample.walletKey Sample.walletKey;
                  systemTransfer Sample.walletKey ASSOCIATED_TOKEN_PROGRAM_ID 1055])
              Sample.signatureA)
    as (_ & _ & _ & Htimeout).
  - reflexivity.
  - reflexivity.
  - reflexivity.
  - vm_compute. discriminate.
  - vm_compute. reflexivity.
  - reflexivity.
  - reflexivity.
  - reflexivity.
  - split; [vm_compute; reflexivity|].
    destruct Htimeout as (_ & Herr & _); [vm_compute; reflexivity | exact Herr].
Defined.

(** Rejection is not tied to leading zero bytes: the Token program's own
    address has 43 characters and is rejected, while the Associated Token
    program's has 44 and is accepted. *)
Lemma program_addresses_validation :
  isValidSolanaAddress "TokenkegQfeZyiNwAJbNbGKPFXCWuBvf9Ss623VQ5DA" = false /\
  head (toBytes TOKEN_PROGRAM_ID) = Some 6 /\
  isValidSolanaAddress "ATokenGPvbdGVqstVQmcLsNZAqeEbtQaMy63xtto2CXv" = true.
Proof. vm_compute. repeat split; reflexivity. Qed.

End Reclaim.

(** ** Further properties of the scan *)

Section ScanFurther.
Import Web3 Detection Reference ScanInvariant.

Lemma scan_addresses_distinct_witness :
  let account := Sample.tokenAccount Sample.accountKey "0" (Some 9) false in
  let connection :=
    Sample.ledger [account]
      (inr [Sample.rawAccount Sample.accountKey ASSOCIATED_TOKEN_PROGRAM_ID 2039280;
            Sample.rawAccount Sample.otherKey ASSOCIATED_TOKEN_PROGRAM_ID 2039280])
      (inr []) in
  NoDup (address <$> [pushed account token (toBase58 TOKEN_PROGRAM_ID);
                      pushed (Sample.rawAccount Sample.otherKey
                                ASSOCIATED_TOKEN_PROGRAM_ID 2039280)
                        associated_token (toBase58 ASSOCIATED_TOKEN_PROGRAM_ID)]).
Proof.
  intros account connection.
  apply (scan_addresses_distinct connection Sample.walletKey _ [account]).
  - vm_compute. reflexivity.
  - reflexivity.
  - vm_compute. apply NoDup_singleton.
Defined.

Lemma fold_left_Forall {X : Type} (P : EmptyAccount -> Prop)
    (step : list EmptyAccount -> X -> list EmptyAccount) :
  (forall acc x, Forall P acc -> Forall P (step acc x)) ->
  forall l acc, Forall P acc -> Forall P (fold_left step l acc).
Proof.
  intros Hstep. induction l as [| x l IH]; intros acc Hacc; cbn [fold_left].
  - exact Hacc.
  - apply IH, Hstep, Hacc.
Qed.

Lemma Forall_push (P : EmptyAccount -> Prop) (acc : list EmptyAccount)
    (e : EmptyAccount) :
  Forall P acc -> P e -> Forall P (acc ++ [e]).
Proof.
  intros Hacc He. apply Forall_app. split; [exact Hacc|]. now constructor.
Qed.

Lemma scanTokenAccount_ok acc account :
  Forall entry_ok acc -> Forall entry_ok (scanTokenAccount acc account).
Proof.
  intros Hacc. unfold scanTokenAccount.
  destruct (amountIsZero account); [|exact Hacc].
  apply Forall_push; [exact Hacc | reflexivity].
Qed.

Lemma scanNftAccount_ok acc account :
  Forall entry_ok acc -> Forall entry_ok (scanNftAccount acc account).
Proof.
  intros Hacc. unfold scanNftAccount.
  destruct (amountIsZero account && _); [|exact Hacc].
  destruct (negb _); [|exact Hacc].
  apply Forall_push; [exact Hacc | reflexivity].
Qed.

Lemma scanAtaAccount_ok acc account :
  Forall entry_ok acc -> Forall entry_ok (scanAtaAccount acc account).
Proof.
  intros Hacc. unfold scanAtaAccount.
  destruct (0 <? _) eqn:Hpos; [|exact Hacc].
  destruct (negb _); [|exact Hacc].
  apply Forall_push; [exact Hacc|].
  split; [now apply Z.ltb_lt | reflexivity].
Qed.

Lemma scanProgramAccount_ok acc account :
  Forall entry_ok acc -> Forall entry_ok (scanProgramAccount acc account).
Proof.
  intros Hacc. unfold scanProgramAccount.
  destruct (negb _); cbn [andb]; [|exact Hacc].
  destruct (0 <? _) eqn:Hpos; [|exact Hacc].
  apply Forall_push; [exact Hacc|].
  split; [now apply Z.ltb_lt | reflexivity].
Qed.

(** Every entry of a scan result is of type [token], [nft],
    [associated_token] or [unknown], never [metadata] or [other]; entries of
    the last two types hold a positive balance; a [token] entry names the
    Token program as its [programId], every other entry the base58 text of
    its owner. *)
Theorem scan_entries_are_well_typed
    (connection : Rpc.Connection) (walletAddress : PublicKey)
    (out : list EmptyAccount) (e : EmptyAccount) :
  scan connection walletAddress = inr out -> e ∈ out ->
  type e <> metadata /\ type e <> other /\
  (type e = associated_token \/ type e = unknown -> 0 < lamports e) /\
  (type e = token -> programId e = toBase58 TOKEN_PROGRAM_ID) /\
  (type e <> token -> programId e = toBase58 (owner e)).
Proof.
  intros Hscan He.
  apply scan_returns in Hscan
    as (l1 & l2 & l3 & i4 & l5 & _ & _ & _ & _ & _ & ->).
  assert (Hall : Forall entry_ok
            (fold_left scanProgramAccount l5
               (fold_left scanAtaAccount l3
                  (fold_left scanNftAccount l2
                     (fold_left scanTokenAccount l1 []))))).
  { apply (fold_left_Forall _ _ scanProgramAccount_ok).
    apply (fold_left_Forall _ _ scanAtaAccount_ok).
    apply (fold_left_Forall _ _ scanNftAccount_ok).
    apply (fold_left_Forall _ _ scanTokenAccount_ok).
    constructor. }
  rewrite Forall_forall in Hall. specialize (Hall e He).
  unfold entry_ok in Hall.
  destruct (type e); try contradiction.
  - split; [intros [=]|]. split; [intros [=]|].
    split; [intros [[=] | [=]]|]. split; [intros _; exact Hall|].
    intros Hne. now contradiction Hne.
  - split; [intros [=]|]. split; [intros [=]|].
    split; [intros [[=] | [=]]|]. split; [intros [=]|].
    intros _. exact Hall.
  - destruct Hall as [Hpos Hid].
    split; [intros [=]|]. split; [intros [=]|].
    split; [intros _; exact Hpos|]. split; [intros [=]|].
    intros _. exact Hid.
  - destruct Hall as [Hpos Hid].
    split; [intros [=]|]. split; [intros [=]|].
    split; [intros _; exact Hpos|]. split; [intros [=]|].
    intros _. exact Hid.
Qed.

Lemma scan_entries_are_well_typed_witness :
  let account :=
    Sample.rawAccount Sample.accountKey TOKEN_PROGRAM_ID 2039280 in
  let e := pushed account unknown (toBase58 TOKEN_PROGRAM_ID) in
  0 < lamports e /\ programId e = toBase58 (owner e).
Proof.
  intros account e.
  destruct (scan_entries_are_well_typed
              (Sample.ledger [] (inr []) (inr [account])) Sample.walletKey [e] e)
    as (_ & _ & Hpos & _ & Hid).
  - vm_compute. reflexivity.
  - apply list_elem_of_singleton. reflexivity.
  - split; [apply Hpos; now right | apply Hid; discriminate].
Defined.

(** The entries of the first loop come first, one per zero-amount record of
    the first token answer and in its order; whatever the later loops add
    is not of type [token], has an address none of those entries has, and
    no two added entries share an address. *)
Theorem scan_result_starts_with_token_entries
    (connection : Rpc.Connection) (walletAddress : PublicKey)
    (out : list EmptyAccount)
    (tokenAccounts : list (Rpc.Keyed Rpc.ParsedAccountData)) :
  scan connection walletAddress = inr out ->
  Rpc.getParsedTokenAccountsByOwner connection 0%nat
    walletAddress TOKEN_PROGRAM_ID = inr tokenAccounts ->
  exists later,
    out = tokenEntries tokenAccounts ++ later /\
    address <$> tokenEntries tokenAccounts
    = Rpc.pubkey <$> List.filter amountIsZero tokenAccounts /\
    NoDup (address <$> later) /\
    forall e, e ∈ later ->
      type e <> token /\
      address e ∉ (Rpc.pubkey <$> List.filter amountIsZero tokenAccounts).
Proof.
  intros Hscan Hq.
  apply scan_returns in Hscan
    as (l1 & l2 & l3 & i4 & l5 & Hq1 & _ & _ & _ & _ & ->).
  rewrite Hq in Hq1. injection Hq1 as <-.
  rewrite scanTokenAccount_fold. cbn [app].
  assert (Haddr : address <$> tokenEntries tokenAccounts
                  = Rpc.pubkey <$> List.filter amountIsZero tokenAccounts).
  { unfold tokenEntries. rewrite <- list_fmap_compose. reflexivity. }
  destruct (later_loops_extend l2 l3 l5 (tokenEntries tokenAccounts))
    as (ext & -> & Hnd & Hext).
  exists ext. split; [reflexivity|]. split; [exact Haddr|].
  split; [exact Hnd|].
  intros e He. destruct (Hext e He) as [Hfresh Htype].
  split; [exact Htype|]. rewrite <- Haddr. exact Hfresh.
Qed.

Lemma scan_result_starts_with_token_entries_witness :
  let account := Sample.tokenAccount Sample.accountKey "0" (Some 9) false in
  let ata :=
    Sample.rawAccount Sample.otherKey ASSOCIATED_TOKEN_PROGRAM_ID 2039280 in
  exists later,
    [pushed account token (toBase58 TOKEN_PROGRAM_ID);
     pushed ata associated_token (toBase58 ASSOCIATED_TOKEN_PROGRAM_ID)]
    = tokenEntries [account] ++ later.
Proof.
  intros account ata.
  destruct (scan_result_starts_with_token_entries
              (Sample.ledger [account] (inr [ata]) (inr []))
              Sample.walletKey
              [pushed account token (toBase58 TOKEN_PROGRAM_ID);
               pushed ata associated_token (toBase58 ASSOCIATED_TOKEN_PROGRAM_ID)]
              [account])
    as (later & Hout & _).
  - vm_compute. reflexivity.
  - reflexivity.
  - exists later. exact Hout.
Defined.

Lemma detection_totalLamports_acc (accounts : list EmptyAccount) (z : Z) :
  fold_left (fun sum account => sum + lamports account) accounts z
  = z + totalLamports accounts.
Proof.
  unfold totalLamports. revert z.
  induction accounts as [| a accounts IH]; intros z; cbn [fold_left].
  - lia.
  - rewrite IH, (IH (0 + lamports a)). lia.
Qed.

Lemma detection_totalLamports_cons (a : EmptyAccount)
    (accounts : list EmptyAccount) :
  totalLamports (a :: accounts) = lamports a + totalLamports accounts.
Proof.
  unfold totalLamports at 1. cbn [fold_left].
  rewrite detection_totalLamports_acc. lia.
Qed.

(** Filtering twice is filtering once with the larger threshold, and a
    higher threshold keeps a sublist of what a lower one keeps. *)
Theorem filterSignificantAccounts_thresholds
    (accounts : list EmptyAccount) (m1 m2 : Z) :
  filterSignificantAccounts (filterSignificantAccounts accounts m1) m2
  = filterSignificantAccounts accounts (Z.max m1 m2) /\
  sublist (filterSignificantAccounts accounts (Z.max m1 m2))
          (filterSignificantAccounts accounts m1).
Proof.
  assert (Heq : filterSignificantAccounts (filterSignificantAccounts accounts m1) m2
                = filterSignificantAccounts accounts (Z.max m1 m2)).
  { unfold filterSignificantAccounts.
    induction accounts as [| a accounts IH]; [reflexivity|].
    rewrite !filter_cons.
    destruct (decide (m1 <= lamports a)) as [H1 | H1].
    - rewrite filter_cons.
      destruct (decide (m2 <= lamports a)) as [H2 | H2];
        destruct (decide (Z.max m1 m2 <= lamports a)) as [H3 | H3];
        try lia; rewrite IH; reflexivity.
    - destruct (decide (Z.max m1 m2 <= lamports a)) as [H3 | H3]; [lia|].
      exact IH. }
  split; [exact Heq|]. rewrite <- Heq. apply sublist_filter.
Qed.

Lemma detection_totalLamports_nonneg (accounts : list EmptyAccount) :
  Forall (fun a => 0 <= lamports a) accounts -> 0 <= totalLamports accounts.
Proof.
  induction 1 as [| a accounts Ha _ IH]; [reflexivity|].
  rewrite detection_totalLamports_cons. lia.
Qed.

Lemma detection_totalLamports_filter (accounts : list EmptyAccount)
    (minLamports : Z) :
  Forall (fun a => 0 <= lamports a) accounts ->
  totalLamports (filterSignificantAccounts accounts minLamports)
  <= totalLamports accounts.
Proof.
  unfold filterSignificantAccounts.
  induction 1 as [| a accounts Ha _ IH]; [reflexivity|].
  rewrite filter_cons.
  destruct (decide (minLamports <= lamports a)) as [Hm | Hm];
    rewrite ?detection_totalLamports_cons; lia.
Qed.

(** For balances that are not negative and whose total is below 2^53, the
    range in which the sums of [calculateTotalReclaim] are exact: the total
    is additive over concatenation, with both parts in that range, and the
    total of what the filter keeps lies between the threshold times the
    number kept and the total of all. *)
Theorem totalLamports_of_significant_accounts
    (accounts more : list EmptyAccount) (minLamports : Z) :
  Forall (fun a => 0 <= lamports a) (accounts ++ more) ->
  totalLamports (accounts ++ more) < 2 ^ 53 ->
  totalLamports (accounts ++ more) = totalLamports accounts + totalLamports more /\
  0 <= totalLamports accounts < 2 ^ 53 /\
  0 <= totalLamports more < 2 ^ 53 /\
  minLamports * Z.of_nat (length (filterSignificantAccounts accounts minLamports))
  <= totalLamports (filterSignificantAccounts accounts minLamports)
  <= totalLamports accounts.
Proof.
  intros Hnn Htotal. apply Forall_app in Hnn as [Hacc Hmore].
  pose proof (detection_totalLamports_nonneg _ Hacc) as H1.
  pose proof (detection_totalLamports_nonneg _ Hmore) as H2.
  assert (Hadd : totalLamports (accounts ++ more)
                 = totalLamports accounts + totalLamports more).
  { unfold totalLamports at 1. rewrite fold_left_app.
    rewrite detection_totalLamports_acc. reflexivity. }
  split; [exact Hadd|]. split; [lia|]. split; [lia|]. split.
  - clear. unfold filterSignificantAccounts.
    induction accounts as [| a accounts IH]; [cbn; lia|].
    rewrite filter_cons.
    destruct (decide (minLamports <= lamports a)) as [Ha | Ha]; [|exact IH].
    rewrite detection_totalLamports_cons. cbn [length].
    rewrite Nat2Z.inj_succ. lia.
  - now apply detection_totalLamports_filter.
Qed.

Lemma totalLamports_of_significant_accounts_witness :
  let low := pushed (Sample.rawAccount Sample.accountKey TOKEN_PROGRAM_ID 1500)
               unknown (toBase58 TOKEN_PROGRAM_ID) in
  let high := pushed (Sample.rawAccount Sample.otherKey TOKEN_PROGRAM_ID 2039280)
                unknown (toBase58 TOKEN_PROGRAM_ID) in
  totalLamports ([low; high] ++ [high]) = 2040780 + 2039280 /\
  2000 * 1 <= totalLamports (filterSignificantAccounts [low; high] 2000) <= 2040780.
Proof.
  intros low high.
  destruct (totalLamports_of_significant_accounts [low; high] [high] 2000)
    as (Hadd & _ & _ & Hkept).
  - repeat constructor; vm_compute; discriminate.
  - vm_compute. reflexivity.
  - split; [exact Hadd | exact Hkept].
Defined.

End ScanFurther.

(** ** Positional digits and the base58 codec *)

Section Digits.
Import Bs58.

Variable base : Z.
Hypothesis base_gt_1 : 1 < base.

Lemma be_value_from (ds : list Z) (a : Z) :
  fold_left (fun acc d => acc * base + d) ds a
  = a * base ^ Z.of_nat (length ds) + be_value base ds.
Proof.
  unfold be_value. revert a.
  induction ds as [| d ds IH]; intros a; cbn [fold_left length].
  - cbn. lia.
  - rewrite IH, (IH (0 * base + d)), Nat2Z.inj_succ, Z.pow_succ_r by lia. lia.
Qed.

Lemma be_value_cons (d : Z) (ds : list Z) :
  be_value base (d :: ds) = d * base ^ Z.of_nat (length ds) + be_value base ds.
Proof.
  unfold be_value at 1. cbn [fold_left]. rewrite be_value_from. lia.
Qed.

Lemma be_value_snoc (ds : list Z) (d : Z) :
  be_value base (ds ++ [d]) = be_value base ds * base + d.
Proof.
  unfold be_value. rewrite fold_left_app. reflexivity.
Qed.

Lemma be_value_bounds (ds : list Z) :
  Forall (fun d => 0 <= d < base) ds ->
  0 <= be_value base ds < base ^ Z.of_nat (length ds).
Proof.
  induction ds as [| d ds IH] using rev_ind; intros Hds.
  - cbn. lia.
  - apply Forall_app in Hds as [Hds Hd]. apply Forall_inv in Hd.
    specialize (IH Hds). rewrite be_value_snoc, length_app. cbn [length].
    rewrite Nat2Z.inj_add, Z.pow_add_r, Z.pow_1_r by lia. nia.
Qed.

Lemma le_digits_length (n : nat) (v : Z) : length (le_digits base n v) = n.
Proof.
  revert v. induction n as [| n IH]; intros v; cbn [le_digits length]; auto.
Qed.

Lemma le_digits_range (n : nat) (v : Z) :
  Forall (fun d => 0 <= d < base) (le_digits base n v).
Proof.
  revert v. induction n as [| n IH]; intros v; cbn [le_digits]; constructor.
  - apply Z.mod_pos_bound. lia.
  - apply IH.
Qed.

Lemma be_digits_range (n : nat) (v : Z) :
  Forall (fun d => 0 <= d < base) (be_digits base n v).
Proof. unfold be_digits. apply Forall_rev, le_digits_range. Qed.

Lemma be_digits_length (n : nat) (v : Z) : length (be_digits base n v) = n.
Proof. unfold be_digits. rewrite length_rev. apply le_digits_length. Qed.

Lemma be_value_be_digits (n : nat) (v : Z) :
  be_value base (be_digits base n v) = v mod base ^ Z.of_nat n.
Proof.
  unfold be_digits. revert v.
  induction n as [| n IH]; intros v; cbn [le_digits rev].
  - cbn. now rewrite Z.mod_1_r.
  - rewrite be_value_snoc, IH, Nat2Z.inj_succ, Z.pow_succ_r by lia.
    assert (0 < base ^ Z.of_nat n) by (apply Z.pow_pos_nonneg; lia).
    rewrite Z.rem_mul_r by lia. lia.
Qed.

Lemma be_digits_be_value (ds : list Z) :
  Forall (fun d => 0 <= d < base) ds ->
  be_digits base (length ds) (be_value base ds) = ds.
Proof.
  unfold be_digits.
  induction ds as [| d ds IH] using rev_ind; intros Hds; [reflexivity|].
  apply Forall_app in Hds as [Hds Hd]. apply Forall_inv in Hd.
  rewrite length_app, Nat.add_comm. cbn [length Nat.add le_digits rev].
  rewrite be_value_snoc.
  replace ((be_value base ds * base + d) mod base) with d
    by (rewrite Z.add_comm, Z.mod_add by lia; symmetry; apply Z.mod_small; lia).
  replace ((be_value base ds * base + d) / base) with (be_value base ds)
    by (rewrite Z.add_comm, Z.div_add by lia; rewrite (Z.div_small d) by lia; lia).
  rewrite IH by exact Hds. reflexivity.
Qed.

Lemma le_digits_zero (n : nat) : le_digits base n 0 = repeat 0 n.
Proof.
  induction n as [| n IH]; [reflexivity|].
  cbn [le_digits repeat]. rewrite Z.mod_0_l, Z.div_0_l by lia. now rewrite IH.
Qed.

Lemma le_digits_app (n m : nat) (v : Z) :
  le_digits base (n + m) v
  = le_digits base n v ++ le_digits base m (v / base ^ Z.of_nat n).
Proof.
  revert v. induction n as [| n IH]; intros v.
  - cbn [Nat.add le_digits app Z.of_nat]. now rewrite Z.pow_0_r, Z.div_1_r.
  - cbn [Nat.add le_digits app]. f_equal. rewrite IH. do 2 f_equal.
    rewrite Nat2Z.inj_succ, Z.pow_succ_r by lia.
    rewrite Z.div_div by (try apply Z.pow_pos_nonneg; lia). reflexivity.
Qed.

Lemma rev_repeat_zero (m : nat) : rev (repeat 0 m) = repeat 0 m.
Proof.
  induction m as [| m IH]; [reflexivity|].
  cbn [repeat rev]. rewrite IH. clear IH.
  induction m as [| m IH]; [reflexivity|]. cbn [repeat app]. now rewrite IH.
Qed.

Lemma be_digits_extend (n m : nat) (v : Z) :
  0 <= v < base ^ Z.of_nat n ->
  be_digits base (n + m) v = repeat 0 m ++ be_digits base n v.
Proof.
  intros Hv. unfold be_digits.
  rewrite le_digits_app, Z.div_small, le_digits_zero by exact Hv.
  rewrite rev_app_distr, rev_repeat_zero. reflexivity.
Qed.

Lemma strip_zeros_repeat (m : nat) (ds : list Z) :
  strip_zeros (repeat 0 m ++ ds) = strip_zeros ds.
Proof. induction m as [| m IH]; [reflexivity | exact IH]. Qed.

Lemma leading_zeros_repeat (m : nat) (ds : list Z) :
  leading_zeros (repeat 0 m ++ ds) = (m + leading_zeros ds)%nat.
Proof.
  induction m as [| m IH]; [reflexivity|].
  cbn [repeat app leading_zeros Nat.add]. now rewrite IH.
Qed.

Lemma leading_zeros_strip (ds : list Z) : leading_zeros (strip_zeros ds) = O.
Proof.
  induction ds as [| d ds IH]; [reflexivity|].
  destruct d as [| p | p]; [exact IH | reflexivity | reflexivity].
Qed.

Lemma strip_zeros_idem (ds : list Z) :
  strip_zeros (strip_zeros ds) = strip_zeros ds.
Proof.
  induction ds as [| d ds IH]; [reflexivity|].
  destruct d as [| p | p]; [exact IH | reflexivity | reflexivity].
Qed.

Lemma leading_and_strip (ds : list Z) :
  repeat 0 (leading_zeros ds) ++ strip_zeros ds = ds.
Proof.
  induction ds as [| d ds IH]; [reflexivity|].
  destruct d as [| p | p]; [|reflexivity | reflexivity].
  cbn [leading_zeros strip_zeros repeat app]. now rewrite IH.
Qed.

Lemma strip_zeros_range (P : Z -> Prop) (ds : list Z) :
  Forall P ds -> Forall P (strip_zeros ds).
Proof.
  induction 1 as [| d ds Hd Hds IH]; [constructor|].
  destruct d as [| p | p]; [exact IH | |]; now constructor.
Qed.

Lemma be_value_strip (ds : list Z) :
  be_value base (strip_zeros ds) = be_value base ds.
Proof.
  induction ds as [| d ds IH]; [reflexivity|].
  destruct d as [| p | p]; [|reflexivity | reflexivity].
  cbn [strip_zeros]. rewrite IH, be_value_cons. lia.
Qed.

Lemma strip_length_le (ds : list Z) :
  (length (strip_zeros ds) <= length ds)%nat.
Proof.
  induction ds as [| d ds IH]; [cbn; lia|].
  destruct d as [| p | p]; cbn [strip_zeros length]; lia.
Qed.

(** The digits of [v] without leading zeros do not depend on how many
    digits were asked for, as long as they suffice. *)
Lemma strip_be_digits_canonical (n m : nat) (v : Z) :
  0 <= v < base ^ Z.of_nat n -> v < base ^ Z.of_nat m ->
  strip_zeros (be_digits base m v) = strip_zeros (be_digits base n v).
Proof.
  intros Hn Hm.
  destruct (Nat.le_ge_cases n m) as [Hle | Hle].
  - replace m with (n + (m - n))%nat by lia.
    rewrite be_digits_extend by exact Hn. apply strip_zeros_repeat.
  - replace n with (m + (n - m))%nat at 1 by lia.
    rewrite be_digits_extend by lia. symmetry. apply strip_zeros_repeat.
Qed.

Lemma strip_be_digits_of_value (ds : list Z) (m : nat) :
  Forall (fun d => 0 <= d < base) ds ->
  be_value base ds < base ^ Z.of_nat m ->
  strip_zeros (be_digits base m (be_value base ds)) = strip_zeros ds.
Proof.
  intros Hds Hm.
  rewrite (strip_be_digits_canonical (length ds) m)
    by (try apply be_value_bounds; assumption).
  now rewrite be_digits_be_value.
Qed.

End Digits.

Section Base58.
Import Bs58 Web3.

Lemma map_is_fmap {A B : Type} (f : A -> B) (l : list A) : map f l = f <$> l.
Proof. induction l as [| x l IH]; [reflexivity|]. cbn. now rewrite IH. Qed.

Lemma char_digit_digit_char (d : Z) :
  0 <= d < 58 -> char_digit (digit_char d) = Some d.
Proof.
  intros Hd.
  assert (Hall : Forall (fun d => char_digit (digit_char d) = Some d) (seqZ 0 58))
    by (vm_compute; repeat constructor).
  rewrite Forall_seqZ in Hall. apply Hall. lia.
Qed.

Lemma index_of_spec (c : ascii) (l : list ascii) (i d : Z) :
  index_of c l i = Some d ->
  i <= d < i + Z.of_nat (length l) /\ nth (Z.to_nat (d - i)) l "1"%char = c.
Proof.
  revert i. induction l as [| x l IH]; intros i; cbn [index_of]; [discriminate|].
  destruct (Ascii.eqb c x) eqn:Hcx.
  - intros [= <-]. apply Ascii.eqb_eq in Hcx. subst x.
    rewrite Z.sub_diag. cbn [length Z.to_nat nth]. split; [lia | reflexivity].
  - intros Hd. apply IH in Hd as [Hr Hn]. cbn [length]. split; [lia|].
    replace (Z.to_nat (d - i)) with (S (Z.to_nat (d - (i + 1)))) by lia.
    exact Hn.
Qed.

Lemma digit_char_char_digit (c : ascii) (d : Z) :
  char_digit c = Some d -> 0 <= d < 58 /\ digit_char d = c.
Proof.
  unfold char_digit, digit_char. intros H. apply index_of_spec in H as [Hr Hn].
  rewrite Z.sub_0_r in Hn. split; [|exact Hn].
  change (Z.of_nat (length (list_ascii_of_string ALPHABET))) with 58 in Hr. lia.
Qed.

Lemma mapM_char_digit_inv (chars : list ascii) (ds : list Z) :
  mapM char_digit chars = Some ds ->
  Forall (fun d => 0 <= d < 58) ds /\ map digit_char ds = chars.
Proof.
  rewrite mapM_Some. induction 1 as [| c d chars ds Hcd _ IH].
  - split; [constructor | reflexivity].
  - apply digit_char_char_digit in Hcd as [Hr Hc]. destruct IH as [IH1 IH2].
    split; [now constructor|]. cbn [map]. now rewrite Hc, IH2.
Qed.

Lemma pow_256_le_58 (n : nat) : 256 ^ Z.of_nat n <= 58 ^ Z.of_nat (2 * n).
Proof.
  replace (Z.of_nat (2 * n)) with (2 * Z.of_nat n) by lia.
  rewrite Z.pow_mul_r by lia. apply Z.pow_le_mono_l. lia.
Qed.

Lemma pow_58_le_256 (n : nat) : 58 ^ Z.of_nat n <= 256 ^ Z.of_nat n.
Proof. apply Z.pow_le_mono_l. lia. Qed.

Lemma repeat_zero_range (b : Z) (m : nat) :
  0 < b -> Forall (fun d => 0 <= d < b) (repeat 0 m).
Proof.
  intros Hb. induction m as [| m IH]; cbn [repeat]; constructor; [lia | exact IH].
Qed.

Lemma decode_digits (ds : list Z) :
  Forall (fun d => 0 <= d < 58) ds ->
  decode (string_of_list_ascii (map digit_char ds))
  = Some (repeat 0 (leading_zeros ds)
          ++ strip_zeros (be_digits 256 (length ds) (be_value 58 ds))).
Proof.
  intros Hds. unfold decode.
  rewrite list_ascii_of_string_of_list_ascii, map_is_fmap.
  rewrite mapM_fmap_Forall_Some; [reflexivity|].
  eapply Forall_impl; [exact Hds|]. intros d Hd. now apply char_digit_digit_char.
Qed.

(** Decoding the encoding of a byte string gives the byte string back. *)
Lemma decode_encode (bytes : list Z) :
  Forall (fun b => 0 <= b < 256) bytes -> decode (encode bytes) = Some bytes.
Proof.
  intros Hbytes. unfold encode.
  set (V := be_value 256 bytes).
  set (D := strip_zeros (be_digits 58 (2 * length bytes) V)).
  pose proof (be_value_bounds 256 ltac:(lia) bytes Hbytes) as HV. fold V in HV.
  pose proof (pow_256_le_58 (length bytes)) as Hpow.
  assert (HD : Forall (fun d => 0 <= d < 58) D)
    by (apply strip_zeros_range, be_digits_range; lia).
  assert (HVD : be_value 58 D = V).
  { unfold D. rewrite be_value_strip, be_value_be_digits by lia.
    apply Z.mod_small. lia. }
  rewrite decode_digits
    by (apply Forall_app; split; [apply repeat_zero_range; lia | exact HD]).
  f_equal.
  rewrite leading_zeros_repeat. unfold D at 1.
  rewrite leading_zeros_strip, Nat.add_0_r.
  assert (Hval : be_value 58 (repeat 0 (leading_zeros bytes) ++ D) = V).
  { rewrite <- (be_value_strip 58) by lia. rewrite strip_zeros_repeat. unfold D.
    rewrite strip_zeros_idem. exact HVD. }
  rewrite Hval.
  rewrite <- (leading_and_strip bytes) at 3. f_equal.
  pose proof (be_value_bounds 58 ltac:(lia) D HD) as HVD'. rewrite HVD in HVD'.
  pose proof (pow_58_le_256 (length D)) as Hpow'.
  assert (Hlen : 256 ^ Z.of_nat (length D)
                 <= 256 ^ Z.of_nat (length (repeat 0 (leading_zeros bytes) ++ D))).
  { apply Z.pow_le_mono_r; [lia|]. rewrite length_app. lia. }
  rewrite (strip_be_digits_canonical 256 ltac:(lia) (length bytes)) by lia.
  unfold V. now rewrite be_digits_be_value by (lia || assumption).
Qed.

(** Encoding what a string decodes to gives the string back. *)
Lemma encode_decode (s : string) (bytes : list Z) :
  decode s = Some bytes ->
  encode bytes = s /\ Forall (fun b => 0 <= b < 256) bytes.
Proof.
  unfold decode. intros Hdec.
  destruct (mapM char_digit (list_ascii_of_string s)) as [ds|] eqn:Hds;
    [|discriminate].
  cbn in Hdec. injection Hdec as <-.
  apply mapM_char_digit_inv in Hds as [Hds Hchars].
  set (V := be_value 58 ds).
  set (B := strip_zeros (be_digits 256 (length ds) V)).
  pose proof (be_value_bounds 58 ltac:(lia) ds Hds) as HV. fold V in HV.
  pose proof (pow_58_le_256 (length ds)) as Hpow.
  assert (HB : Forall (fun b => 0 <= b < 256) B)
    by (apply strip_zeros_range, be_digits_range; lia).
  assert (Hbytes : Forall (fun b => 0 <= b < 256)
                     (repeat 0 (leading_zeros ds) ++ B))
    by (apply Forall_app; split; [apply repeat_zero_range; lia | exact HB]).
  split; [|exact Hbytes].
  assert (HVB : be_value 256 (repeat 0 (leading_zeros ds) ++ B) = V).
  { rewrite <- (be_value_strip 256) by lia. rewrite strip_zeros_repeat. unfold B.
    rewrite strip_zeros_idem, be_value_strip, be_value_be_digits by lia.
    apply Z.mod_small. lia. }
  unfold encode. rewrite HVB, leading_zeros_repeat. unfold B at 1.
  rewrite leading_zeros_strip, Nat.add_0_r.
  pose proof (be_value_bounds 256 ltac:(lia) _ Hbytes) as HV'. rewrite HVB in HV'.
  pose proof (pow_256_le_58 (length (repeat 0 (leading_zeros ds) ++ B))) as Hpow'.
  rewrite (strip_be_digits_canonical 58 ltac:(lia) (length ds)) by lia.
  unfold V. rewrite be_digits_be_value by (lia || assumption).
  rewrite leading_and_strip, Hchars. apply string_of_list_ascii_of_string.
Qed.

(** [new PublicKey(key.toBase58())] is [key]. *)
Lemma PublicKey_new_toBase58 (key : PublicKey) :
  0 <= bn key < 2 ^ 256 -> PublicKey_new (toBase58 key) = inr key.
Proof.
  intros Hbn. unfold PublicKey_new, toBase58, toBytes.
  rewrite decode_encode by (apply be_digits_range; lia).
  rewrite be_digits_length, Nat.eqb_refl, be_value_be_digits by lia.
  destruct key as [v]. cbn [bn] in *. do 2 f_equal.
  apply Z.mod_small. change (256 ^ Z.of_nat PUBLIC_KEY_LENGTH) with (2 ^ 256). lia.
Qed.

(** A parsed key prints as the text it was parsed from. *)
Lemma toBase58_PublicKey_new (s : string) (key : PublicKey) :
  PublicKey_new s = inr key -> toBase58 key = s /\ 0 <= bn key < 2 ^ 256.
Proof.
  unfold PublicKey_new. destruct (decode s) as [decoded|] eqn:Hdec; [|discriminate].
  destruct (Nat.eqb (length decoded) PUBLIC_KEY_LENGTH) eqn:Hlen; [|discriminate].
  intros [= <-]. apply Nat.eqb_eq in Hlen.
  apply encode_decode in Hdec as [Henc Hrange].
  pose proof (be_value_bounds 256 ltac:(lia) decoded Hrange) as Hv.
  rewrite Hlen in Hv. change (256 ^ Z.of_nat PUBLIC_KEY_LENGTH) with (2 ^ 256) in Hv.
  split; [|exact Hv]. unfold toBase58, toBytes. cbn [bn].
  rewrite <- Hlen, be_digits_be_value by (lia || assumption). exact Henc.
Qed.

End Base58.

(** ** Address entry and the scan request *)

Section AddressEntry.
Import Web3 Page PageUi.

Lemma valid_address_text (address : string) :
  isValidSolanaAddress address = true ->
  exists key, PublicKey_new (trim address) = inr key /\
              toBase58 key = trim address.
Proof.
  unfold isValidSolanaAddress.
  destruct (PublicKey_new (trim address)) as [e | key] eqn:Hkey; [discriminate|].
  intros _. exists key. split; [reflexivity|].
  now apply toBase58_PublicKey_new in Hkey as [Htext _].
Qed.

Lemma existsb_none {A : Type} (p : A -> bool) (l : list A) :
  Forall (fun t => p t = false) l -> existsb p l = false.
Proof.
  induction 1 as [| t l Ht _ IH]; [reflexivity|].
  cbn [existsb]. now rewrite Ht, IH.
Qed.

(** Every byte of a white space character of two or of three bytes is above
    the ASCII range. *)
Lemma is_white_space_2_ascii (c1 c2 : ascii) :
  (nat_of_ascii c1 < 128)%nat \/ (nat_of_ascii c2 < 128)%nat ->
  is_white_space_2 c1 c2 = false.
Proof.
  intros Hlow. unfold is_white_space_2, whiteSpace2. apply existsb_none.
  repeat constructor; cbn [fst snd];
    rewrite !andb_false_iff, !Nat.eqb_neq; lia.
Qed.

Lemma is_white_space_3_ascii (c1 c2 c3 : ascii) :
  (nat_of_ascii c1 < 128)%nat \/ (nat_of_ascii c2 < 128)%nat
  \/ (nat_of_ascii c3 < 128)%nat ->
  is_white_space_3 c1 c2 c3 = false.
Proof.
  intros Hlow. unfold is_white_space_3, whiteSpace3. apply existsb_none.
  repeat constructor; cbn [fst snd];
    rewrite !andb_false_iff, !Nat.eqb_neq; lia.
Qed.

Lemma string_rev_list (s : string) :
  list_ascii_of_string (string_rev s) = rev (list_ascii_of_string s).
Proof. unfold string_rev. apply list_ascii_of_string_of_list_ascii. Qed.

Lemma string_rev_involutive (s : string) : string_rev (string_rev s) = s.
Proof.
  unfold string_rev at 1. rewrite string_rev_list, rev_involutive.
  apply string_of_list_ascii_of_string.
Qed.

(** A text that starts with an ASCII character other than white space has
    no white space at its head, met from either end. *)
Lemma trim_with_ascii_head
    (ws2 : ascii -> ascii -> bool) (ws3 : ascii -> ascii -> ascii -> bool)
    (c : ascii) (s : string) :
  is_white_space c = false ->
  (forall c2, ws2 c c2 = false) -> (forall c2 c3, ws3 c c2 c3 = false) ->
  trim_with ws2 ws3 (String c s) = String c s.
Proof.
  intros H1 H2 H3. cbn [trim_with]. rewrite H1.
  destruct s as [| c2 s]; [reflexivity|]. rewrite H2.
  destruct s as [| c3 s]; [reflexivity|]. rewrite H3. reflexivity.
Qed.

(** [trim] leaves a text of ASCII characters other than white space as it
    is. *)
Lemma trim_ascii_text (s : string) :
  Forall (fun c => is_white_space c = false /\ (nat_of_ascii c < 128)%nat)
         (list_ascii_of_string s) ->
  trim s = s.
Proof.
  intros Hs. unfold trim, trim_start, trim_end.
  assert (Hstart : trim_with is_white_space_2 is_white_space_3 s = s).
  { destruct s as [| c s]; [reflexivity|].
    cbn [list_ascii_of_string] in Hs. apply Forall_cons in Hs as [[Hc Hlow] _].
    apply trim_with_ascii_head; [exact Hc | |].
    - intros c2. apply is_white_space_2_ascii. now left.
    - intros c2 c3. apply is_white_space_3_ascii. now left. }
  rewrite Hstart.
  assert (Hrev : Forall (fun c => is_white_space c = false
                                  /\ (nat_of_ascii c < 128)%nat)
                        (list_ascii_of_string (string_rev s))).
  { rewrite string_rev_list. now apply Forall_rev. }
  assert (Hend : trim_with (fun c2 c1 => is_white_space_2 c1 c2)
                           (fun c3 c2 c1 => is_white_space_3 c1 c2 c3)
                           (string_rev s)
                 = string_rev s).
  { destruct (string_rev s) as [| c r]; [reflexivity|].
    cbn [list_ascii_of_string] in Hrev. apply Forall_cons in Hrev as [[Hc Hlow] _].
    apply trim_with_ascii_head; [exact Hc | |].
    - intros c2. apply is_white_space_2_ascii. now right.
    - intros c2 c3. apply is_white_space_3_ascii. right. now right. }
  rewrite Hend. apply string_rev_involutive.
Qed.

(** The base58 text of a key has no white space to trim. *)
Lemma trim_toBase58 (key : PublicKey) : trim (toBase58 key) = toBase58 key.
Proof.
  apply trim_ascii_text. unfold toBase58, Bs58.encode.
  rewrite list_ascii_of_string_of_list_ascii.
  apply List.Forall_map, Forall_forall. intros d _.
  assert (Halphabet :
            forall c, In c (list_ascii_of_string Bs58.ALPHABET) ->
                      is_white_space c = false /\ (nat_of_ascii c < 128)%nat).
  { apply List.Forall_forall.
    repeat constructor; vm_compute; lia. }
  unfold Bs58.digit_char.
  destruct (nth_in_or_default (Z.to_nat d) (list_ascii_of_string Bs58.ALPHABET)
              "1"%char) as [Hin | ->].
  - now apply Halphabet.
  - split; [reflexivity | vm_compute; lia].
Qed.

(** C10 as stated fails.  An input with a space before the Associated Token
    program's address is accepted, and that input does not parse as a public
    key: what is parsed is the trimmed text.  Nor are the rejected keys those
    with leading zero bytes: the Token program's address, whose first byte
    is 6, has 43 characters and is rejected, and the key of the bytes
    [0; 255; ...; 255] has 44 characters and is accepted. *)
Lemma untrimmed_address_counterexample :
  let input := " ATokenGPvbdGVqstVQmcLsNZAqeEbtQaMy63xtto2CXv"%string in
  isValidSolanaAddress input = true /\
  PublicKey_new input = inl "Non-base58 character"%string /\
  (head (toBytes TOKEN_PROGRAM_ID) = Some 6 /\
   String.length (toBase58 TOKEN_PROGRAM_ID) = 43%nat /\
   isValidSolanaAddress (toBase58 TOKEN_PROGRAM_ID) = false) /\
  (head (toBytes (mkPublicKey (2 ^ 248 - 1))) = Some 0 /\
   String.length (toBase58 (mkPublicKey (2 ^ 248 - 1))) = 44%nat /\
   isValidSolanaAddress (toBase58 (mkPublicKey (2 ^ 248 - 1))) = true).
Proof.
  vm_compute. split; [reflexivity|]. split; [reflexivity|].
  split; (split; [reflexivity|]; split; reflexivity).
Qed.

(** C10 (amended): an input is accepted exactly when its text without the
    white space at its two ends parses as a public key and has 44
    characters, that text being the base58 form of the key.  So a key given
    by its base58 text is accepted exactly when that text has 44 characters:
    the all-zero key (32 characters) and the Token program's address (43
    characters, no leading zero byte) are rejected. *)
Theorem address_validation_requires_44_characters :
  (forall address : string,
     isValidSolanaAddress address = true <->
     exists key, PublicKey_new (trim address) = inr key /\
                 toBase58 key = trim address /\
                 String.length (toBase58 key) = 44%nat) /\
  (forall key : PublicKey,
     0 <= bn key < 2 ^ 256 ->
     (isValidSolanaAddress (toBase58 key) = true
      <-> String.length (toBase58 key) = 44%nat)) /\
  (toBytes SYSTEM_PROGRAM_ID = replicate 32 0 /\
   toBase58 SYSTEM_PROGRAM_ID = "11111111111111111111111111111111"%string /\
   isValidSolanaAddress "11111111111111111111111111111111" = false) /\
  (head (toBytes TOKEN_PROGRAM_ID) = Some 6 /\
   toBase58 TOKEN_PROGRAM_ID
   = "TokenkegQfeZyiNwAJbNbGKPFXCWuBvf9Ss623VQ5DA"%string /\
   isValidSolanaAddress "TokenkegQfeZyiNwAJbNbGKPFXCWuBvf9Ss623VQ5DA" = false).
Proof.
  split; [|split; [|split]].
  - intros address. unfold isValidSolanaAddress, toString.
    destruct (PublicKey_new (trim address)) as [e | key] eqn:Hkey.
    + split; [discriminate|]. intros (key & [=] & _).
    + apply toBase58_PublicKey_new in Hkey as [Htext _].
      rewrite Nat.eqb_eq. split.
      * intros Hlen. exists key. split; [reflexivity|]. split; assumption.
      * intros (key' & [= <-] & _ & Hlen). exact Hlen.
  - intros key Hkey. unfold isValidSolanaAddress, toString.
    rewrite trim_toBase58, (PublicKey_new_toBase58 key Hkey).
    apply Nat.eqb_eq.
  - vm_compute. split; [reflexivity|]. split; reflexivity.
  - vm_compute. split; [reflexivity|]. split; reflexivity.
Qed.

(** [isValidSolanaAddress] accepts exactly the inputs whose trimmed text has
    44 characters and parses as a public key. *)
Theorem valid_address_is_44_character_text (address : string) :
  isValidSolanaAddress address = true <->
  String.length (trim address) = 44%nat /\
  exists key, PublicKey_new (trim address) = inr key.
Proof.
  unfold isValidSolanaAddress, toString.
  destruct (PublicKey_new (trim address)) as [e | key] eqn:Hkey.
  - split; [discriminate|]. intros (_ & key & [=]).
  - apply toBase58_PublicKey_new in Hkey as [Htext _]. rewrite Htext, Nat.eqb_eq.
    split; [intros Hlen; split; [exact Hlen | now exists key] | tauto].
Qed.

(** [handleAddressSubmit] never reaches its toast: an accepted input is
    stored as its trimmed text, with the input field and the error cleared;
    a rejected input only sets the error. *)
Theorem handleAddressSubmit_outcome (addressInput : string) (st : State) :
  (isValidSolanaAddress addressInput = true ->
   handleAddressSubmit addressInput st
   = (""%string, setError (setPublicAddress st (trim addressInput)) "", [])) /\
  (isValidSolanaAddress addressInput = false ->
   handleAddressSubmit addressInput st
   = (addressInput,
      setError st "Invalid Solana address. Please check and try again.", [])).
Proof.
  unfold handleAddressSubmit. split; intros Hvalid; rewrite Hvalid; cbn [negb].
  - apply valid_address_text in Hvalid as (key & Hkey & Htext).
    rewrite Hkey. unfold toString. now rewrite Htext.
  - reflexivity.
Qed.

Lemma handleAddressSubmit_outcome_witness :
  let nbsp := String "194" (String "160" EmptyString) in
  let line_separator := String "226" (String "128" (String "168" EmptyString)) in
  handleAddressSubmit
    (nbsp ++ "  ATokenGPvbdGVqstVQmcLsNZAqeEbtQaMy63xtto2CXv " ++ line_separator)
    Sample.state
  = (""%string,
     setError (setPublicAddress Sample.state
                 "ATokenGPvbdGVqstVQmcLsNZAqeEbtQaMy63xtto2CXv") "", []).
Proof.
  intros nbsp line_separator.
  destruct (handleAddressSubmit_outcome
              (nbsp ++ "  ATokenGPvbdGVqstVQmcLsNZAqeEbtQaMy63xtto2CXv "
               ++ line_separator)
              Sample.state)
    as [Haccept _].
  rewrite Haccept by (vm_compute; reflexivity). reflexivity.
Defined.

(** The address stored by [handleAddressSubmit] is always parsed by the scan
    route: once the route has its connection it answers with the scan's
    outcome for that key, never with 400 or a key error. *)
Theorem accepted_address_reaches_the_scan
    (ledger : string -> JsError + Rpc.Connection)
    (nonStringKey : Rpc.Connection -> Route.Json -> Route.Response)
    (SOLANA_RPC_URL : option string) (addressInput : string) (st : State) :
  isValidSolanaAddress addressInput = true ->
  exists owner,
    PublicKey_new (trim addressInput) = inr owner /\
    Route.POST ledger nonStringKey SOLANA_RPC_URL
      (inr (Route.scanRequest
              (publicAddress (snd (fst (handleAddressSubmit addressInput st))))))
    = match Route.Connection_new ledger SOLANA_RPC_URL with
      | inl message => Route.mkResponse (Route.error_body message) 500
      | inr connection =>
          match Detection.scan connection owner with
          | inl message => Route.mkResponse (Route.error_body message) 500
          | inr accounts => Route.mkResponse (Route.accounts_body accounts) 200
          end
      end.
Proof.
  intros Hvalid.
  pose proof (valid_address_text addressInput Hvalid) as (owner & Hkey & Htext).
  exists owner. split; [exact Hkey|].
  unfold handleAddressSubmit. rewrite Hvalid. cbn [negb]. rewrite Hkey.
  cbn [fst snd setError setPublicAddress publicAddress].
  unfold toString. rewrite Htext. unfold Route.POST.
  destruct (Route.Connection_new ledger SOLANA_RPC_URL) as [e | connection];
    [reflexivity|].
  cbn [Route.scanRequest Route.member rev app List.find fst snd String.eqb
       Ascii.eqb Bool.eqb fmap option_fmap option_map Route.truthy].
  destruct (String.eqb (trim addressInput) "") eqn:Hempty.
  - apply String.eqb_eq in Hempty. rewrite Hempty in Hkey. discriminate Hkey.
  - cbn [negb]. rewrite Hkey. reflexivity.
Qed.

Lemma accepted_address_reaches_the_scan_witness :
  let ledger := fun _ : string =>
    inr (Sample.ledger [] (inr []) (inr [])) : JsError + Rpc.Connection in
  let nonStringKey := fun (_ : Rpc.Connection) (_ : Route.Json) =>
    Route.mkResponse (Route.error_body "Invalid public key input") 500 in
  exists owner,
    PublicKey_new "ATokenGPvbdGVqstVQmcLsNZAqeEbtQaMy63xtto2CXv" = inr owner /\
    Route.httpStatus
      (Route.POST ledger nonStringKey
         (Some "https://api.mainnet-beta.solana.com"%string)
         (inr (Route.scanRequest "ATokenGPvbdGVqstVQmcLsNZAqeEbtQaMy63xtto2CXv")))
    = 200 /\
    Route.httpStatus
      (Route.POST ledger nonStringKey None
         (inr (Route.scanRequest "ATokenGPvbdGVqstVQmcLsNZAqeEbtQaMy63xtto2CXv")))
    = 500.
Proof.
  intros ledger nonStringKey.
  destruct (accepted_address_reaches_the_scan ledger nonStringKey
              (Some "https://api.mainnet-beta.solana.com"%string)
              "ATokenGPvbdGVqstVQmcLsNZAqeEbtQaMy63xtto2CXv" Sample.state)
    as (owner & Hkey & Hpost).
  - vm_compute. reflexivity.
  - exists owner. split; [exact Hkey|].
    split; vm_compute; reflexivity.
Defined.

(** After [loadConnectedWallet] the scanned address is the wallet's: the
    wallet matches. *)
Theorem loadConnectedWallet_matches (st : State) (key : PublicKey) :
  wallet st = Some key -> 0 <= bn key < 2 ^ 256 ->
  checkWalletMatch (loadConnectedWallet st) = Some true /\
  publicAddress (loadConnectedWallet st) = toString key /\
  error (loadConnectedWallet st) = ""%string.
Proof.
  intros Hw Hbn. unfold loadConnectedWallet, checkWalletMatch. rewrite Hw.
  cbn [setError setPublicAddress wallet publicAddress error]. rewrite Hw.
  split; [|split; reflexivity].
  destruct (String.eqb (toString key) "") eqn:Hempty.
  - apply String.eqb_eq in Hempty.
    pose proof (PublicKey_new_toBase58 key Hbn) as Hparse.
    unfold toString in Hempty. rewrite Hempty in Hparse. discriminate Hparse.
  - f_equal. apply String.eqb_eq. reflexivity.
Qed.

Lemma loadConnectedWallet_matches_witness :
  checkWalletMatch (loadConnectedWallet Sample.state) = Some true.
Proof.
  destruct (loadConnectedWallet_matches Sample.state Sample.walletKey) as [H _].
  - reflexivity.
  - vm_compute. split; [discriminate | reflexivity].
  - exact H.
Defined.

(** Text and key determine each other: a key in range parses back from its
    base58 text, a parsed key prints as the text it came from, and two keys
    in range with the same text are the same key. *)
Theorem public_key_text_round_trip :
  (forall key, 0 <= bn key < 2 ^ 256 -> PublicKey_new (toBase58 key) = inr key) /\
  (forall s key, PublicKey_new s = inr key ->
     toBase58 key = s /\ 0 <= bn key < 2 ^ 256) /\
  (forall key key', 0 <= bn key < 2 ^ 256 -> 0 <= bn key' < 2 ^ 256 ->
     toString key = toString key' -> key = key').
Proof.
  split; [exact PublicKey_new_toBase58|]. split; [exact toBase58_PublicKey_new|].
  intros key key' Hk Hk' Htext. unfold toString in Htext.
  pose proof (PublicKey_new_toBase58 key Hk) as H1.
  pose proof (PublicKey_new_toBase58 key' Hk') as H2.
  rewrite Htext in H1. congruence.
Qed.

End AddressEntry.

(** ** Selection and the outcome of [reclaimSOL] *)

Section ReclaimFurther.
Import Web3 Page PageUi PageFacts Reference.

(** Toggling an address twice restores the state; one toggle flips the
    address and leaves every other address as it was. *)
Theorem toggleSelectAccount_flips (address : string) (st : State) :
  toggleSelectAccount address (toggleSelectAccount address st) = st /\
  (address ∈ selectedAccounts (toggleSelectAccount address st)
   <-> address ∉ selectedAccounts st) /\
  (forall other, other <> address ->
     (other ∈ selectedAccounts (toggleSelectAccount address st)
      <-> other ∈ selectedAccounts st)).
Proof.
  destruct st as [c w p l a S t s e].
  unfold toggleSelectAccount, setSelectedAccounts.
  cbn [connected wallet publicAddress loading accounts selectedAccounts
       totalSOL status error].
  destruct (decide (address ∈ S)) as [Hin | Hout];
    cbn [connected wallet publicAddress loading accounts selectedAccounts
         totalSOL status error].
  - destruct (decide (address ∈ S ∖ {[address]})) as [Hin' | Hout'].
    { apply elem_of_difference in Hin' as [_ Hn]. contradict Hn.
      now apply elem_of_singleton. }
    split; [|split].
    + f_equal. apply set_eq. intros x.
      rewrite elem_of_union, elem_of_difference, elem_of_singleton.
      destruct (decide (x = address)) as [-> | Hne]; tauto.
    + rewrite elem_of_difference, elem_of_singleton. tauto.
    + intros other Hne. rewrite elem_of_difference, elem_of_singleton. tauto.
  - destruct (decide (address ∈ S ∪ {[address]})) as [Hin' | Hout'].
    2: { contradict Hout'. apply elem_of_union. right.
         now apply elem_of_singleton. }
    split; [|split].
    + f_equal. apply set_eq. intros x.
      rewrite elem_of_difference, elem_of_union, elem_of_singleton.
      destruct (decide (x = address)) as [-> | Hne]; tauto.
    + rewrite elem_of_union, elem_of_singleton. tauto.
    + intros other Hne. rewrite elem_of_union, elem_of_singleton. tauto.
Qed.

Lemma filter_all {A : Type} (P : A -> Prop) `{forall x, Decision (P x)}
    (l : list A) :
  Forall P l -> filter P l = l.
Proof.
  induction 1 as [| x l Hx _ IH]; [reflexivity|].
  rewrite filter_cons. destruct (decide (P x)); [now rewrite IH | contradiction].
Qed.

Lemma filter_none {A : Type} (P : A -> Prop) `{forall x, Decision (P x)}
    (l : list A) :
  Forall (fun x => ~ P x) l -> filter P l = [].
Proof.
  induction 1 as [| x l Hx _ IH]; [reflexivity|].
  rewrite filter_cons. destruct (decide (P x)); [contradiction | exact IH].
Qed.

(** After [selectAll] the reclaim covers every displayed account, in order;
    after [deselectAll] it covers none and the reclaim button is disabled,
    as it is after [clearAddress]. *)
Theorem selectAll_selects_every_account (st : State) :
  selectedAccountPubkeys (selectAll st) = accounts st /\
  selectedAccountPubkeys (deselectAll st) = [] /\
  reclaimDisabled (deselectAll st) = true /\
  reclaimDisabled (clearAddress st) = true.
Proof.
  split; [|split; [|split]].
  - unfold selectedAccountPubkeys, selectAll.
    cbn [setSelectedAccounts selectedAccounts accounts].
    apply filter_all. apply Forall_forall. intros a Ha.
    apply elem_of_list_to_set, list_elem_of_In, in_map_iff.
    exists a. split; [reflexivity | now apply list_elem_of_In].
  - unfold selectedAccountPubkeys, deselectAll.
    cbn [setSelectedAccounts selectedAccounts accounts].
    apply filter_none. apply Forall_forall. intros a _. apply not_elem_of_empty.
  - unfold reclaimDisabled, deselectAll.
    cbn [setSelectedAccounts selectedAccounts loading connected].
    rewrite size_empty. cbn [Nat.eqb]. now rewrite orb_true_r.
  - unfold reclaimDisabled, clearAddress.
    cbn [selectedAccounts loading connected].
    rewrite size_empty. cbn [Nat.eqb]. now rewrite orb_true_r.
Qed.

Lemma reclaimDisabled_false (st : State) :
  reclaimDisabled st = false ->
  loading st = false /\ connected st = true /\
  size (selectedAccounts st) <> 0%nat /\
  exists key, wallet st = Some key /\
              String.eqb (toString key) (publicAddress st) = true.
Proof.
  unfold reclaimDisabled, notWalletMatches, checkWalletMatch. intros H.
  apply orb_false_iff in H as [H Hmatch].
  apply orb_false_iff in H as [H Hconn].
  apply orb_false_iff in H as [Hload Hsize].
  split; [exact Hload|]. split; [now destruct (connected st)|].
  split; [now apply Nat.eqb_neq|].
  destruct (wallet st) as [key|]; [|discriminate].
  exists key. split; [reflexivity|].
  destruct (String.eqb (publicAddress st) ""); [discriminate|].
  now destruct (String.eqb (toString key) (publicAddress st)).
Qed.

Lemma reclaimSOL_past_guards (solToFixed4 : Z -> string)
    (st : State) (world : World) (key : PublicKey) :
  wallet st = Some key -> connected st = true ->
  String.eqb (toString key) (publicAddress st) = true ->
  size (selectedAccounts st) <> 0%nat ->
  reclaimSOL solToFixed4 st world
  = match reclaimTry solToFixed4 st world key with
    | inr st' =>
        mkState (connected st') (wallet st') (publicAddress st') false
          (accounts st') (selectedAccounts st') (totalSOL st') (status st')
          (error st')
    | inl message =>
        mkState (connected st) (wallet st) (publicAddress st) false
          (accounts st) (selectedAccounts st) (totalSOL st) ""
          ("Transaction failed: " ++ message)
    end.
Proof.
  intros Hw Hc Hm Hs. unfold reclaimSOL. rewrite Hw, Hc, Hm. cbn [negb].
  destruct (size (selectedAccounts st)) as [| k]; [contradiction|].
  reflexivity.
Qed.

Lemma reclaimTry_completes (solToFixed4 : Z -> string)
    (st st' : State) (world : World) (key : PublicKey) :
  reclaimTry solToFixed4 st world key = inr st' ->
  accounts st' = [] /\ selectedAccounts st' = ∅ /\ error st' = ""%string /\
  exists signature,
    status st'
    = successMessage solToFixed4 (totalLamports (selectedAccountPubkeys st))
        (feeLamports (totalLamports (selectedAccountPubkeys st))) signature
    \/ status st' = submittedMessage signature.
Proof.
  unfold reclaimTry.
  destruct (reclaimInstructions st world key) as [e | ixs]; [discriminate|].
  destruct (getLatestBlockhash world) as [e | bh]; [discriminate|].
  destruct (signTransaction world _) as [e | signed]; [discriminate|].
  destruct (sendRawTransaction world signed) as [e | signature]; [discriminate|].
  intros [= <-]. cbn [accounts selectedAccounts error status].
  split; [reflexivity|]. split; [reflexivity|]. split; [reflexivity|].
  exists signature.
  destruct (fst (pollConfirmation (getSignatureStatus world signature)));
    [now left | now right].
Qed.

(** When the reclaim button is enabled, [reclaimSOL] gets past its guards.
    It then either fails inside the transaction steps, leaving the accounts
    and the selection as they were with the error "Transaction failed: ..."
    and an empty status, or completes, clearing accounts and selection with
    an empty error.  In both cases [loading] ends false. *)
Theorem enabled_reclaim_fails_or_completes
    (solToFixed4 : Z -> string) (st : State) (world : World) :
  reclaimDisabled st = false ->
  exists key,
    wallet st = Some key /\
    loading (reclaimSOL solToFixed4 st world) = false /\
    ((exists message,
        reclaimTry solToFixed4 st world key = inl message /\
        error (reclaimSOL solToFixed4 st world)
        = ("Transaction failed: " ++ message)%string /\
        status (reclaimSOL solToFixed4 st world) = ""%string /\
        accounts (reclaimSOL solToFixed4 st world) = accounts st /\
        selectedAccounts (reclaimSOL solToFixed4 st world) = selectedAccounts st)
     \/
     (exists st',
        reclaimTry solToFixed4 st world key = inr st' /\
        error (reclaimSOL solToFixed4 st world) = ""%string /\
        accounts (reclaimSOL solToFixed4 st world) = [] /\
        selectedAccounts (reclaimSOL solToFixed4 st world) = ∅)).
Proof.
  intros Hen.
  apply reclaimDisabled_false in Hen as (_ & Hc & Hs & key & Hw & Hm).
  exists key. split; [exact Hw|].
  rewrite (reclaimSOL_past_guards solToFixed4 st world key Hw Hc Hm Hs).
  destruct (reclaimTry solToFixed4 st world key) as [message | st'] eqn:Htry.
  - split; [reflexivity|]. left. exists message.
    split; [reflexivity|]. split; [reflexivity|]. split; [reflexivity|].
    split; reflexivity.
  - split; [reflexivity|]. right. exists st'.
    apply reclaimTry_completes in Htry as (Ha & Hsel & He & _).
    cbn [error accounts selectedAccounts]. rewrite Ha, Hsel, He.
    split; [reflexivity|]. split; [reflexivity|]. split; reflexivity.
Qed.

Lemma enabled_reclaim_fails_or_completes_witness :
  let final :=
    reclaimSOL Sample.toFixed4 Sample.state
      (Sample.world Sample.signatureA Sample.processed) in
  loading final = false /\ accounts final = [].
Proof.
  intros final.
  destruct (enabled_reclaim_fails_or_completes Sample.toFixed4 Sample.state
              (Sample.world Sample.signatureA Sample.processed))
    as (key & _ & Hload & _).
  - vm_compute. reflexivity.
  - split; [exact Hload | vm_compute; reflexivity].
Defined.

(** When a guard of [reclaimSOL] fails, the only change is the error text;
    neither the wallet extension nor the ledger is consulted. *)
Theorem guarded_reclaim_only_sets_error
    (solToFixed4 : Z -> string) (st : State) (world world' : World) :
  connected st = false \/ wallet st = None \/
  size (selectedAccounts st) = 0%nat \/
  (exists key, wallet st = Some key /\ toString key <> publicAddress st) ->
  reclaimSOL solToFixed4 st world = reclaimSOL solToFixed4 st world' /\
  exists message,
    message <> ""%string /\
    reclaimSOL solToFixed4 st world = setError st message.
Proof.
  intros Hguard. unfold reclaimSOL.
  destruct (wallet st) as [key|] eqn:Hw.
  - destruct (connected st) eqn:Hc.
    + destruct (String.eqb (toString key) (publicAddress st)) eqn:Hm; cbn [negb].
      * destruct (size (selectedAccounts st)) as [| k] eqn:Hs; cbn [Nat.eqb].
        -- split; [reflexivity|]. eexists. split; [|reflexivity]. discriminate.
        -- exfalso. destruct Hguard as [H | [H | [H | (key' & H & Hne)]]];
             try discriminate.
           injection H as <-. apply String.eqb_eq in Hm. contradiction.
      * split; [reflexivity|]. eexists. split; [|reflexivity]. discriminate.
    + split; [reflexivity|]. eexists. split; [|reflexivity]. discriminate.
  - split; [reflexivity|]. eexists. split; [|reflexivity]. discriminate.
Qed.

Lemma guarded_reclaim_only_sets_error_witness :
  reclaimSOL Sample.toFixed4 (deselectAll Sample.state)
    (Sample.world Sample.signatureA Sample.processed)
  = reclaimSOL Sample.toFixed4 (deselectAll Sample.state)
      (Sample.world Sample.signatureB Sample.processed).
Proof.
  destruct (guarded_reclaim_only_sets_error Sample.toFixed4
              (deselectAll Sample.state)
              (Sample.world Sample.signatureA Sample.processed)
              (Sample.world Sample.signatureB Sample.processed))
    as [Heq _].
  - right. right. left. vm_compute. reflexivity.
  - exact Heq.
Defined.

Lemma pollLoop_ext (g g' : nat -> StatusResponse) (n i : nat) :
  (forall j, reachedConfirmed (g j) = reachedConfirmed (g' j)) ->
  pollLoop n i g = pollLoop n i g'.
Proof.
  intros Hext. revert i. induction n as [| n IH]; intros i; cbn [pollLoop].
  - reflexivity.
  - rewrite Hext, IH. reflexivity.
Qed.

Lemma reachedConfirmed_dropErr (r : StatusResponse) :
  reachedConfirmed (dropErr r) = reachedConfirmed r.
Proof. destruct r as [e | [st |]]; reflexivity. Qed.

(** [reclaimSOL] never reads the [err] member of a status answer: removing
    it from every answer changes nothing, so a transaction that the ledger
    reports as confirmed with an error is announced like a successful one. *)
Theorem reclaim_ignores_transaction_error
    (solToFixed4 : Z -> string) (st : State) (world : World) :
  reclaimSOL solToFixed4 st (ignoringErr world)
  = reclaimSOL solToFixed4 st world.
Proof.
  unfold reclaimSOL, reclaimTry, reclaimInstructions, ignoringErr.
  cbn [NEXT_PUBLIC_FEE_RECIPIENT getLatestBlockhash signTransaction
       sendRawTransaction getSignatureStatus].
  destruct (wallet st) as [key|]; [|reflexivity].
  destruct (connected st); [|reflexivity].
  destruct (negb _); [reflexivity|].
  destruct (Nat.eqb _ _); [reflexivity|].
  destruct (PublicKey_new _) as [e | rcpt]; [reflexivity|].
  destruct (buildInstructions key rcpt _) as [e | ixs]; [reflexivity|].
  destruct (getLatestBlockhash world) as [e | bh]; [reflexivity|].
  destruct (signTransaction world _) as [e | signed]; [reflexivity|].
  destruct (sendRawTransaction world signed) as [e | signature]; [reflexivity|].
  unfold pollConfirmation.
  rewrite (pollLoop_ext
             (fun i => dropErr (getSignatureStatus world signature i))
             (getSignatureStatus world signature) 60 0)
    by (intros j; apply reachedConfirmed_dropErr).
  reflexivity.
Qed.

(** With the fee recipient missing from the environment, or not a public
    key, an enabled reclaim always ends in "Transaction failed" with the key
    error, whatever the wallet and the ledger would answer; accounts and
    selection stay. *)
Theorem reclaim_without_fee_recipient
    (solToFixed4 : Z -> string) (st : State) (world : World) (message : JsError) :
  reclaimDisabled st = false ->
  PublicKey_new (default ""%string (NEXT_PUBLIC_FEE_RECIPIENT world))
  = inl message ->
  (NEXT_PUBLIC_FEE_RECIPIENT world = None ->
   message = "Invalid public key input"%string) /\
  reclaimSOL solToFixed4 st world
  = mkState (connected st) (wallet st) (publicAddress st) false
      (accounts st) (selectedAccounts st) (totalSOL st) ""
      ("Transaction failed: " ++ message).
Proof.
  intros Hen Hrcpt.
  apply reclaimDisabled_false in Hen as (_ & Hc & Hs & key & Hw & Hm).
  split.
  - intros Hnone. rewrite Hnone in Hrcpt. cbn in Hrcpt. congruence.
  - rewrite (reclaimSOL_past_guards solToFixed4 st world key Hw Hc Hm Hs).
    unfold reclaimTry, reclaimInstructions. rewrite Hrcpt. reflexivity.
Qed.

Lemma reclaim_without_fee_recipient_witness :
  error (reclaimSOL Sample.toFixed4 Sample.state
           (mkWorld None (inr "blockhash"%string) (fun tx => inr tx)
              (fun _ => inr Sample.signatureA) (fun _ _ => Sample.processed)))
  = "Transaction failed: Invalid public key input"%string.
Proof.
  destruct (reclaim_without_fee_recipient Sample.toFixed4 Sample.state
              (mkWorld None (inr "blockhash"%string) (fun tx => inr tx)
                 (fun _ => inr Sample.signatureA) (fun _ _ => Sample.processed))
              "Invalid public key input")
    as [_ Hfinal].
  - vm_compute. reflexivity.
  - vm_compute. reflexivity.
  - rewrite Hfinal. reflexivity.
Defined.

(** For non-negative balances with a total below 2^53 the fee lies between
    0 and the total, and so does the net amount. *)
Theorem fee_and_net_within_total (sel : list EmptyAccount) :
  Forall (fun a => 0 <= lamports a) sel ->
  totalLamports sel < 2 ^ 53 ->
  0 <= feeLamports (totalLamports sel) <= totalLamports sel /\
  0 <= netLamports (totalLamports sel) <= totalLamports sel.
Proof.
  intros Hnn Htotal. pose proof (totalLamports_nonneg sel Hnn) as H0.
  pose proof (feeLamports_range (totalLamports sel) ltac:(lia)) as Hfee.
  unfold netLamports. lia.
Qed.

Lemma fee_and_net_within_total_witness :
  let sel := [Sample.pageAccount Sample.accountKey 7505999378950833] in
  0 <= feeLamports (totalLamports sel) <= totalLamports sel.
Proof.
  intros sel. destruct (fee_and_net_within_total sel) as [Hfee _].
  - repeat constructor. cbn. lia.
  - vm_compute. reflexivity.
  - exact Hfee.
Defined.

(** A selection that matches no displayed account still passes the size
    guard; the instruction list is then the fee transfer alone, for 0
    lamports. *)
Theorem stale_selection_builds_empty_transfer
    (st : State) (world : World) (wallet FEE_RECIPIENT : PublicKey) :
  PublicKey_new (default ""%string (NEXT_PUBLIC_FEE_RECIPIENT world))
  = inr FEE_RECIPIENT ->
  (forall a, a ∈ accounts st -> toString (address a) ∉ selectedAccounts st) ->
  reclaimInstructions st world wallet
  = inr [systemTransfer wallet FEE_RECIPIENT 0].
Proof.
  intros Hrcpt Hstale. unfold reclaimInstructions. rewrite Hrcpt.
  assert (Hsel : selectedAccountPubkeys st = []).
  { unfold selectedAccountPubkeys. apply filter_none, Forall_forall.
    intros a Ha. now apply Hstale. }
  rewrite Hsel. unfold buildInstructions, feeTransferInstruction.
  change (feeLamports (totalLamports [])) with 0.
  rewrite feeBuffer_le_bytes by lia. reflexivity.
Qed.

Lemma stale_selection_builds_empty_transfer_witness :
  let st :=
    mkState true (Some Sample.walletKey) (toString Sample.walletKey) false
      [Sample.pageAccount Sample.accountKey 2039]
      {[ toString Sample.otherKey ]} JsNumber.zero "" "" in
  reclaimDisabled st = false /\
  reclaimInstructions st (Sample.world Sample.signatureA Sample.processed)
    Sample.walletKey
  = inr [systemTransfer Sample.walletKey ASSOCIATED_TOKEN_PROGRAM_ID 0].
Proof.
  intros st. split; [vm_compute; reflexivity|].
  apply stale_selection_builds_empty_transfer.
  - vm_compute. reflexivity.
  - intros a Ha. apply list_elem_of_singleton in Ha. subst a.
    vm_compute. intros H. discriminate H.
Defined.

(** When the wallet refuses to sign, the reclaim ends with "Transaction
    failed: " and the wallet's reason; nothing is sent, and accounts and
    selection stay for another attempt. *)
Theorem refused_signature_sends_nothing
    (solToFixed4 : Z -> string) (st : State) (world : World)
    (key : PublicKey) (instructions : list TransactionInstruction)
    (blockhash : string) (reason : JsError) :
  reclaimDisabled st = false -> wallet st = Some key ->
  reclaimInstructions st world key = inr instructions ->
  getLatestBlockhash world = inr blockhash ->
  signTransaction world (mkTransaction blockhash key instructions)
  = inl reason ->
  reclaimSOL solToFixed4 st world
  = mkState (connected st) (wallet st) (publicAddress st) false
      (accounts st) (selectedAccounts st) (totalSOL st) ""
      ("Transaction failed: " ++ reason).
Proof.
  intros Hen Hkey Hix Hbh Hsign.
  apply reclaimDisabled_false in Hen as (_ & Hc & Hs & key' & Hw & Hm).
  rewrite Hkey in Hw. injection Hw as <-.
  rewrite (reclaimSOL_past_guards solToFixed4 st world key Hkey Hc Hm Hs).
  unfold reclaimTry. rewrite Hix, Hbh, Hsign. reflexivity.
Qed.

Lemma refused_signature_sends_nothing_witness :
  let world :=
    mkWorld (Some Sample.feeRecipient) (inr "blockhash"%string)
      (fun _ => inl "User rejected the request."%string)
      (fun _ => inr Sample.signatureA) (fun _ _ => Sample.processed) in
  error (reclaimSOL Sample.toFixed4 Sample.state world)
  = "Transaction failed: User rejected the request."%string /\
  selectedAccounts (reclaimSOL Sample.toFixed4 Sample.state world)
  = selectedAccounts Sample.state.
Proof.
  intros world.
  rewrite (refused_signature_sends_nothing Sample.toFixed4 Sample.state world
             Sample.walletKey
             [createCloseAccountInstruction Sample.accountKey
                Sample.walletKey Sample.walletKey;
              createCloseAccountInstruction Sample.otherKey
                Sample.walletKey Sample.walletKey;
              systemTransfer Sample.walletKey ASSOCIATED_TOKEN_PROGRAM_ID 1055]
             "blockhash" "User rejected the request.").
  - split; reflexivity.
  - vm_compute. reflexivity.
  - reflexivity.
  - vm_compute. reflexivity.
  - reflexivity.
  - reflexivity.
Defined.

(** When a status answer within the 60 attempts reports "confirmed" or
    "finalized", the reclaim ends with the success message, which states
    the total, the net amount and the fee, and with accounts, selection and
    error cleared. *)
Theorem confirmed_reclaim_reports_success
    (solToFixed4 : Z -> string) (st : State) (world : World)
    (key : PublicKey) (instructions : list TransactionInstruction)
    (blockhash : string) (signedTx : Transaction) (signature : string)
    (i : nat) :
  reclaimDisabled st = false -> wallet st = Some key ->
  reclaimInstructions st world key = inr instructions ->
  getLatestBlockhash world = inr blockhash ->
  signTransaction world (mkTransaction blockhash key instructions)
  = inr signedTx ->
  sendRawTransaction world signedTx = inr signature ->
  (i < 60)%nat ->
  reachedConfirmed (getSignatureStatus world signature i) = true ->
  reclaimSOL solToFixed4 st world
  = mkState (connected st) (wallet st) (publicAddress st) false [] ∅
      JsNumber.zero
      (successMessage solToFixed4 (totalLamports (selectedAccountPubkeys st))
         (feeLamports (totalLamports (selectedAccountPubkeys st))) signature)
      "".
Proof.
  intros Hen Hkey Hix Hbh Hsign Hsend Hi Hconf.
  apply reclaimDisabled_false in Hen as (_ & Hc & Hs & key' & Hw & Hm).
  rewrite Hkey in Hw. injection Hw as <-.
  rewrite (reclaimSOL_past_guards solToFixed4 st world key Hkey Hc Hm Hs).
  unfold reclaimTry. rewrite Hix, Hbh, Hsign, Hsend.
  destruct (pollLoop_spec (getSignatureStatus world signature) 60 0)
    as (_ & Hnot & _ & Hno).
  fold (pollConfirmation (getSignatureStatus world signature)) in Hnot, Hno.
  destruct (fst (pollConfirmation (getSignatureStatus world signature)))
    eqn:Hpoll.
  - reflexivity.
  - exfalso. specialize (Hno eq_refl).
    rewrite (Hnot i) in Hconf; [discriminate | lia | rewrite Hno; lia].
Qed.

Lemma confirmed_reclaim_reports_success_witness :
  let confirmed :=
    status_value (Some (mkSignatureStatus (Some "finalized"%string) None)) in
  let world := Sample.world Sample.signatureA confirmed in
  accounts (reclaimSOL Sample.toFixed4 Sample.state world) = [] /\
  error (reclaimSOL Sample.toFixed4 Sample.state world) = ""%string.
Proof.
  intros confirmed world.
  rewrite (confirmed_reclaim_reports_success Sample.toFixed4 Sample.state world
             Sample.walletKey
             [createCloseAccountInstruction Sample.accountKey
                Sample.walletKey Sample.walletKey;
              createCloseAccountInstruction Sample.otherKey
                Sample.walletKey Sample.walletKey;
              systemTransfer Sample.walletKey ASSOCIATED_TOKEN_PROGRAM_ID 1055]
             "blockhash"
             (mkTransaction "blockhash" Sample.walletKey
                [createCloseAccountInstruction Sample.accountKey
                   Sample.walletKey Sample.walletKey;
                 createCloseAccountInstruction Sample.otherKey
                   Sample.walletKey Sample.walletKey;
                 systemTransfer Sample.walletKey ASSOCIATED_TOKEN_PROGRAM_ID 1055])
             Sample.signatureA 0).
  - split; reflexivity.
  - vm_compute. reflexivity.
  - reflexivity.
  - vm_compute. reflexivity.
  - reflexivity.
  - reflexivity.
  - reflexivity.
  - lia.
  - reflexivity.
Defined.

End ReclaimFurther.

(** ** The scan route *)

Section RouteProps.
Import Web3 Detection Reference.




End RouteProps.
